(** * chatgpt-vercel: the API route [src/pages/api/index.ts]

    A shallow embedding of the edge route: the token budget, the
    per-key billing lookup and its table, the request pipeline [post]
    and the server-sent-event transcoder [streamParser].

    The file has three layers.
    - [JS]: the part of the JavaScript runtime the route relies on
      (IEEE-754 numbers, UTF-16 strings, dynamic values, [JSON.parse],
      [TextEncoder], [Array.prototype.sort], the stream controller).
    - [Route]: the route itself, one definition per source function;
      [Endpoint]: the host [baseURL] of the completion endpoint.
    - [Transcoder], [Billings], [Pipeline]: the properties; [Streams],
      [Requests], [Address], [Tables]: further properties of the same
      code.

    Left out of the embedding: the texts that carry no decision (the
    dates of [formatDate], the JSON text of the upstream request, the
    digits of the table cells, the wording of the errors that the engine
    throws), the deployment [config], and the framing of server-sent
    events, which is the work of eventsource-parser: the transcoder
    starts from parsed events. *)

From Stdlib Require Import String Ascii.
From Stdlib Require Import ZArith NArith List Bool Lia Permutation.
From Stdlib Require Import Floats.SpecFloat.
Import ListNotations.
Local Open Scope list_scope.
Local Open Scope Z_scope.
Set Warnings "-register-all".

(* ================================================================== *)
(** * The JavaScript runtime *)
(* ================================================================== *)

Module JS.

(** ** Numbers

    A JavaScript number is an IEEE-754 binary64 value.  [spec_float] with
    precision 53 and maximal exponent 1024 is that format (the NaN payload
    apart, which JavaScript cannot observe). *)

Definition number : Type := spec_float.

Definition prec : Z := 53.
Definition emax : Z := 1024.

Definition NaN : number := S754_nan.
Definition Infinity : number := S754_infinity false.
Definition zero : number := S754_zero false.

(** The number nearest to the integer [z] (round to nearest, ties to even). *)
Definition of_Z (z : Z) : number := binary_normalize prec emax z 0 false.

(** The number nearest to [m * 10 ^ e] for a natural [m], with sign [neg]:
    the value of a decimal literal.  Both branches round the exact value
    once. *)
Definition of_decimal (neg : bool) (m : Z) (e : Z) : number :=
  match m with
  | Z0 => S754_zero neg
  | Zpos p =>
      if 0 <=? e
      then binary_normalize prec emax
             (if neg then - (m * 10 ^ e) else m * 10 ^ e) 0 false
      else SFdiv prec emax (S754_finite neg p 0)
                           (S754_finite false (Z.to_pos (10 ^ (- e))) 0)
  | Zneg _ => NaN
  end.

Definition add : number -> number -> number := SFadd prec emax.
Definition sub : number -> number -> number := SFsub prec emax.
Definition div : number -> number -> number := SFdiv prec emax.

(** [x < y], [x <= y] and [x === y] on numbers; each is false when an
    operand is NaN, and the two zeros are equal. *)
Definition ltb : number -> number -> bool := SFltb.
Definition leb : number -> number -> bool := SFleb.
Definition eqb : number -> number -> bool := SFeqb.

Definition is_nan (x : number) : bool :=
  match x with S754_nan => true | _ => false end.

Definition is_infinite (x : number) : bool :=
  match x with S754_infinity _ => true | _ => false end.

Definition is_zero (x : number) : bool :=
  match x with S754_zero _ => true | _ => false end.

(** [Number.isInteger]. *)
Definition isInteger (x : number) : bool :=
  match x with
  | S754_zero _ => true
  | S754_finite _ m e =>
      if 0 <=? e then true else (Z.pos m mod 2 ^ (- e) =? 0)
  | _ => false
  end.

(** ** Strings

    A JavaScript string is a sequence of UTF-16 code units. *)

Definition jsstring : Type := list N.

(** An ASCII literal as a JavaScript string. *)
Definition str (s : String.string) : jsstring :=
  map Ascii.N_of_ascii (String.list_ascii_of_string s).
Arguments str s%_string.

(** The same, with every apostrophe of the literal standing for a double
    quote (code unit 34): JSON texts are written this way below. *)
Definition json_text (s : String.string) : jsstring :=
  map (fun c => if N.eqb c 39 then 34%N else c) (str s).
Arguments json_text s%_string.

Definition string_eqb (a b : jsstring) : bool :=
  if list_eq_dec N.eq_dec a b then true else false.

Fixpoint startsWith (s p : jsstring) : bool :=
  match p, s with
  | [], _ => true
  | c :: p', d :: s' => N.eqb c d && startsWith s' p'
  | _ :: _, [] => false
  end.

(** WhiteSpace and LineTerminator code units: what [trim] strips and what
    may surround a numeric string. *)
Definition is_space (c : N) : bool :=
  match c with
  | 9 | 10 | 11 | 12 | 13 | 32 | 160 | 5760
  | 8192 | 8193 | 8194 | 8195 | 8196 | 8197 | 8198 | 8199 | 8200 | 8201
  | 8202 | 8232 | 8233 | 8239 | 8287 | 12288 | 65279 => true
  | _ => false
  end%N.

Fixpoint trimStart (s : jsstring) : jsstring :=
  match s with
  | c :: s' => if is_space c then trimStart s' else s
  | [] => []
  end.

Definition trim (s : jsstring) : jsstring :=
  rev (trimStart (rev (trimStart s))).

(** [s.slice(0, n)]. *)
Definition slice0 (n : nat) (s : jsstring) : jsstring := firstn n s.

(** ** Dynamic values: what [JSON.parse] returns, and [undefined] *)

Inductive value : Type :=
| VUndefined
| VNull
| VBool (b : bool)
| VNum (n : number)
| VStr (s : jsstring)
| VArr (items : list value)
| VObj (props : list (jsstring * value)).

(** An object is its own properties in insertion order, one entry per key. *)
Definition object : Type := list (jsstring * value).

Fixpoint lookup (k : jsstring) (o : object) : value :=
  match o with
  | [] => VUndefined
  | (k', v) :: o' => if string_eqb k k' then v else lookup k o'
  end.

Fixpoint has_key (k : jsstring) (o : object) : bool :=
  match o with
  | [] => false
  | (k', _) :: o' => string_eqb k k' || has_key k o'
  end.

(** [o[k] = v]: replaces the value of an existing key in place, appends a
    new key. *)
Fixpoint set (k : jsstring) (v : value) (o : object) : object :=
  match o with
  | [] => [(k, v)]
  | (k', v') :: o' =>
      if string_eqb k k' then (k, v) :: o' else (k', v') :: set k v o'
  end.

(** [{...a, ...b}] for two objects. *)
Definition spread (a b : object) : object :=
  fold_left (fun acc kv => set (fst kv) (snd kv) acc) b a.

(** [v.name] for a property name that no prototype defines (every name the
    route reads is of that kind: error, message, hard_limit_usd,
    total_usage, choices, delta, content).  [None] is the TypeError that
    reading a property of [undefined] or [null] throws. *)
Definition get (v : value) (name : jsstring) : option value :=
  match v with
  | VUndefined | VNull => None
  | VObj o => Some (lookup name o)
  | _ => Some VUndefined
  end.

(** [v?.name]. *)
Definition get_opt (v : value) (name : jsstring) : value :=
  match get v name with
  | Some x => x
  | None => VUndefined
  end.

(** [v[0]]: the first element of an array, the first code unit of a string,
    the property "0" of an object. *)
Definition get0 (v : value) : option value :=
  match v with
  | VUndefined | VNull => None
  | VArr (x :: _) => Some x
  | VStr (c :: _) => Some (VStr [c])
  | VObj o => Some (lookup (str "0") o)
  | _ => Some VUndefined
  end.

(** ToBoolean. *)
Definition truthy (v : value) : bool :=
  match v with
  | VUndefined | VNull => false
  | VBool b => b
  | VNum n => negb (is_zero n || is_nan n)
  | VStr s => match s with [] => false | _ => true end
  | VArr _ | VObj _ => true
  end.

(** ** Numeric literals *)

Definition is_digit (c : N) : bool := (48 <=? c)%N && (c <=? 57)%N.

Definition digit_val (c : N) : Z := Z.of_N c - 48.

(** The longest prefix of decimal digits, and what follows it. *)
Fixpoint take_digits (s : jsstring) : jsstring * jsstring :=
  match s with
  | c :: s' =>
      if is_digit c
      then let (ds, r) := take_digits s' in (c :: ds, r)
      else ([], s)
  | [] => ([], [])
  end.

Definition digits_value (ds : jsstring) : Z :=
  fold_left (fun acc c => 10 * acc + digit_val c) ds 0.

(** The value of a digit of radix at most 16, if [c] is one. *)
Definition hex_val (c : N) : option Z :=
  if is_digit c then Some (digit_val c)
  else if (97 <=? c)%N && (c <=? 102)%N then Some (Z.of_N c - 87)
  else if (65 <=? c)%N && (c <=? 70)%N then Some (Z.of_N c - 55)
  else None.

(** A non-empty run of digits of radix [radix], read to the end. *)
Fixpoint radix_value (radix : Z) (s : jsstring) (acc : Z) : option Z :=
  match s with
  | [] => Some acc
  | c :: s' =>
      match hex_val c with
      | Some d => if d <? radix then radix_value radix s' (radix * acc + d)
                  else None
      | None => None
      end
  end.

(** An optional sign: whether it is a minus, and what follows it. *)
Definition take_sign (s : jsstring) : bool * jsstring :=
  match s with
  | 45 :: s' => (true, s')
  | 43 :: s' => (false, s')
  | _ => (false, s)
  end%N.

(** ExponentPart, if one starts [s]: its value and what follows it; [None]
    when an exponent mark is followed by no digit. *)
Definition take_exponent (s : jsstring) : option (Z * jsstring) :=
  match s with
  | (101 | 69)%N :: s' =>
      let (neg, s1) := take_sign s' in
      let (ds, r) := take_digits s1 in
      match ds with
      | [] => None
      | _ => Some (if neg then - digits_value ds else digits_value ds, r)
      end
  | _ => Some (0, s)
  end.

(** StrUnsignedDecimalLiteral, read to the end of the string. *)
Definition unsigned_decimal (neg : bool) (s : jsstring) : number :=
  if string_eqb s (str "Infinity") then S754_infinity neg
  else
    let (ip, r1) := take_digits s in
    let '(dot, fp, r2) :=
      match r1 with
      | 46%N :: r => let (fp, r2) := take_digits r in (true, fp, r2)
      | _ => (false, [], r1)
      end in
    match ip, fp with
    | [], [] => NaN
    | _, _ =>
        match take_exponent r2 with
        | Some (ex, []) =>
            of_decimal neg (digits_value (ip ++ fp)) (ex - Z.of_nat (length fp))
        | _ => NaN
        end
    end.

(** StringToNumber: the value of [Number(s)] for a string.  Literals are
    rounded to the nearest number, which the engines do for any number of
    digits. *)
Definition StringToNumber (s : jsstring) : number :=
  match trim s with
  | [] => zero
  | 48%N :: (120 | 88)%N :: (_ :: _) as ds =>
      match radix_value 16 ds 0 with Some z => of_Z z | None => NaN end
  | 48%N :: (111 | 79)%N :: (_ :: _) as ds =>
      match radix_value 8 ds 0 with Some z => of_Z z | None => NaN end
  | 48%N :: (98 | 66)%N :: (_ :: _) as ds =>
      match radix_value 2 ds 0 with Some z => of_Z z | None => NaN end
  | t => let (neg, u) := take_sign t in unsigned_decimal neg u
  end.

(** [v === 0]. *)
Definition is_number_zero (v : value) : bool :=
  match v with VNum n => is_zero n | _ => false end.

(** ** [JSON.parse] *)

(** JSON white space. *)
Fixpoint skip_ws (s : jsstring) : jsstring :=
  match s with
  | (9 | 10 | 13 | 32)%N :: s' => skip_ws s'
  | _ => s
  end.

(** Four hexadecimal digits as a code unit. *)
Definition hex4 (a b c d : N) : option N :=
  match hex_val a, hex_val b, hex_val c, hex_val d with
  | Some x, Some y, Some z, Some w =>
      Some (Z.to_N (((x * 16 + y) * 16 + z) * 16 + w))
  | _, _, _, _ => None
  end.

(** The rest of a string literal after its opening quote: the string, and
    what follows the closing quote. *)
Fixpoint parse_string (s : jsstring) (acc : jsstring)
  : option (jsstring * jsstring) :=
  match s with
  | [] => None
  | 34%N :: r => Some (rev acc, r)
  | 92%N :: r =>
      match r with
      | 34%N :: r' => parse_string r' (34%N :: acc)
      | 92%N :: r' => parse_string r' (92%N :: acc)
      | 47%N :: r' => parse_string r' (47%N :: acc)
      | 98%N :: r' => parse_string r' (8%N :: acc)
      | 102%N :: r' => parse_string r' (12%N :: acc)
      | 110%N :: r' => parse_string r' (10%N :: acc)
      | 114%N :: r' => parse_string r' (13%N :: acc)
      | 116%N :: r' => parse_string r' (9%N :: acc)
      | 117%N :: a :: b :: c :: d :: r' =>
          match hex4 a b c d with
          | Some u => parse_string r' (u :: acc)
          | None => None
          end
      | _ => None
      end
  | c :: r => if (c <? 32)%N then None else parse_string r (c :: acc)
  end.

(** A JSON number at the head of [s], the minus sign already read. *)
Definition parse_number (neg : bool) (s : jsstring)
  : option (number * jsstring) :=
  let '(ip, r1) :=
    match s with
    | 48%N :: r => ([48%N], r)
    | _ => take_digits s
    end in
  match ip with
  | [] => None
  | _ =>
      let frac :=
        match r1 with
        | 46%N :: r =>
            let (fp, r2) := take_digits r in
            match fp with [] => None | _ => Some (fp, r2) end
        | _ => Some ([], r1)
        end in
      match frac with
      | None => None
      | Some (fp, r2) =>
          match take_exponent r2 with
          | Some (ex, r3) =>
              Some (of_decimal neg (digits_value (ip ++ fp))
                      (ex - Z.of_nat (length fp)), r3)
          | None => None
          end
      end
  end.

(** One JSON value at the head of [s] (white space skipped), and what
    follows it.  Every call reads a code unit before it calls deeper, so
    fuel above twice the length of the text is never exhausted. *)
Fixpoint parse_value (fuel : nat) (s : jsstring) {struct fuel}
  : option (value * jsstring) :=
  match fuel with
  | O => None
  | S f =>
      match skip_ws s with
      | 123%N :: r =>
          match skip_ws r with
          | 125%N :: r' => Some (VObj [], r')
          | _ => parse_members f r []
          end
      | 91%N :: r =>
          match skip_ws r with
          | 93%N :: r' => Some (VArr [], r')
          | _ => parse_elements f r []
          end
      | 34%N :: r =>
          match parse_string r [] with
          | Some (t, r') => Some (VStr t, r')
          | None => None
          end
      | 116%N :: 114%N :: 117%N :: 101%N :: r => Some (VBool true, r)
      | 102%N :: 97%N :: 108%N :: 115%N :: 101%N :: r => Some (VBool false, r)
      | 110%N :: 117%N :: 108%N :: 108%N :: r => Some (VNull, r)
      | 45%N :: r =>
          match parse_number true r with
          | Some (n, r') => Some (VNum n, r')
          | None => None
          end
      | t =>
          match parse_number false t with
          | Some (n, r') => Some (VNum n, r')
          | None => None
          end
      end
  end
with parse_elements (fuel : nat) (s : jsstring) (acc : list value)
  {struct fuel} : option (value * jsstring) :=
  match fuel with
  | O => None
  | S f =>
      match parse_value f s with
      | Some (v, r) =>
          match skip_ws r with
          | 44%N :: r' => parse_elements f r' (v :: acc)
          | 93%N :: r' => Some (VArr (rev (v :: acc)), r')
          | _ => None
          end
      | None => None
      end
  end
with parse_members (fuel : nat) (s : jsstring) (acc : object)
  {struct fuel} : option (value * jsstring) :=
  match fuel with
  | O => None
  | S f =>
      match skip_ws s with
      | 34%N :: r =>
          match parse_string r [] with
          | Some (k, r1) =>
              match skip_ws r1 with
              | 58%N :: r2 =>
                  match parse_value f r2 with
                  | Some (v, r3) =>
                      match skip_ws r3 with
                      | 44%N :: r4 => parse_members f r4 (set k v acc)
                      | 125%N :: r4 => Some (VObj (set k v acc), r4)
                      | _ => None
                      end
                  | None => None
                  end
              | _ => None
              end
          | None => None
          end
      | _ => None
      end
  end.

(** [JSON.parse(text)]; [None] is the SyntaxError it throws. *)
Definition JSON_parse (text : jsstring) : option value :=
  match parse_value (2 * length text + 2) text with
  | Some (v, r) => match skip_ws r with [] => Some v | _ => None end
  | None => None
  end.

(** ** Strings of values: [Number::toString], ToString *)

(** The decimal digits of a natural number, most significant first. *)
Fixpoint uint_digits (u : Decimal.uint) : jsstring :=
  match u with
  | Decimal.Nil => []
  | Decimal.D0 u' => 48%N :: uint_digits u'
  | Decimal.D1 u' => 49%N :: uint_digits u'
  | Decimal.D2 u' => 50%N :: uint_digits u'
  | Decimal.D3 u' => 51%N :: uint_digits u'
  | Decimal.D4 u' => 52%N :: uint_digits u'
  | Decimal.D5 u' => 53%N :: uint_digits u'
  | Decimal.D6 u' => 54%N :: uint_digits u'
  | Decimal.D7 u' => 55%N :: uint_digits u'
  | Decimal.D8 u' => 56%N :: uint_digits u'
  | Decimal.D9 u' => 57%N :: uint_digits u'
  end.

Definition Z_digits (z : Z) : jsstring := uint_digits (N.to_uint (Z.to_N z)).

(** Whether [a / b < 10 ^ n], for positive [a] and [b]. *)
Definition below_pow10 (a b n : Z) : bool :=
  if 0 <=? n then a <? b * 10 ^ n else a * 10 ^ (- n) <? b.

(** The least [n] from [n0] on with [a / b < 10 ^ n]. *)
Fixpoint magnitude (fuel : nat) (a b n0 : Z) : Z :=
  match fuel with
  | O => n0
  | S f => if below_pow10 a b n0 then n0 else magnitude f a b (n0 + 1)
  end.

(** For [x = a / b] with [10 ^ (n - 1) <= x < 10 ^ n]: the integer [s]
    of [k] digits nearest to [x] among those for which [s * 10 ^ (n - k)]
    rounds to [x] (the even one of two equally near), if there is one. *)
Definition digits_candidate (x : number) (a b n k : Z) : option Z :=
  let p := k - n in
  let num := if 0 <=? p then a * 10 ^ p else a in
  let den := if 0 <=? p then b else b * 10 ^ (- p) in
  let lo := num / den in
  let hi := lo + 1 in
  let ok c := (10 ^ (k - 1) <=? c) && eqb (of_decimal false c (n - k)) x in
  match ok lo, ok hi with
  | true, false => Some lo
  | false, true => Some hi
  | false, false => None
  | true, true =>
      let dl := num - lo * den in
      let dh := hi * den - num in
      if dl <? dh then Some lo
      else if dh <? dl then Some hi
      else if Z.even lo then Some lo else Some hi
  end.

(** The shortest such [s], trying [k] digits and then more, with its [k]. *)
Fixpoint shortest_digits (fuel : nat) (x : number) (a b n k : Z) : Z * Z :=
  match fuel with
  | O => (a * 10 ^ (17 - n) / b, 17)
  | S f =>
      match digits_candidate x a b n k with
      | Some s => (s, k)
      | None => shortest_digits f x a b n (k + 1)
      end
  end.

Definition zeros (n : Z) : jsstring := repeat 48%N (Z.to_nat n).

(** [Number::toString(x)] for a positive finite [x = m * 2 ^ e]. *)
Definition positive_toString (m : positive) (e : Z) : jsstring :=
  let x := S754_finite false m e in
  let a := if 0 <=? e then Z.pos m * 2 ^ e else Z.pos m in
  let b := if 0 <=? e then 1 else 2 ^ (- e) in
  let n0 := magnitude 700 a b (-330) in
  let (s0, k) := shortest_digits 17 x a b n0 1 in
  (* a candidate that rounded up to 10 ^ k is the digit 1 one place higher *)
  let '(s, k, n) := if s0 =? 10 ^ k then (1, 1, n0 + 1) else (s0, k, n0) in
  let ds := Z_digits s in
  if (k <=? n) && (n <=? 21) then ds ++ zeros (n - k)
  else if (0 <? n) && (n <=? 21)
  then firstn (Z.to_nat n) ds ++ 46%N :: skipn (Z.to_nat n) ds
  else if (-6 <? n) && (n <=? 0) then 48%N :: 46%N :: zeros (- n) ++ ds
  else
    let ex := n - 1 in
    let tail := 101%N :: (if ex <? 0 then 45%N else 43%N) :: Z_digits (Z.abs ex) in
    match ds with
    | [d] => d :: tail
    | d :: ds' => d :: 46%N :: ds' ++ tail
    | [] => tail
    end.

Definition Number_toString (x : number) : jsstring :=
  match x with
  | S754_nan => str "NaN"
  | S754_zero _ => str "0"
  | S754_infinity s => if s then str "-Infinity" else str "Infinity"
  | S754_finite s m e =>
      if s then 45%N :: positive_toString m e else positive_toString m e
  end.

(** The errors that the engine itself throws in the route.  Their
    messages are the engine's; the embedding keeps the error, not its
    text. *)
Inductive EngineError : Type :=
| TypeError_to_primitive
  (** an object cannot be converted to a primitive value *)
| RangeError_status
  (** [new Response]: the status is outside 200..599 *)
| TypeError_statusText
  (** [new Response]: the status text is no reason phrase *)
| TypeError_null_body_status
  (** [new Response]: a body with a status that allows none *).

(** ToString of a value of [JSON.parse]; [None] is the TypeError of
    ToPrimitive.  An object of [JSON.parse] inherits [toString] and
    [valueOf] of [Object.prototype]: its string is "[object Object]",
    unless it has an own property [toString], which is no function (no
    value of [JSON.parse] is one): then [toString] is passed over, the
    inherited [valueOf] returns the object itself, and ToPrimitive throws.
    An array joins the strings of its elements with commas, [null] and
    [undefined] elements being empty, and throws when an element does. *)
Fixpoint ToString (v : value) : option jsstring :=
  match v with
  | VUndefined => Some (str "undefined")
  | VNull => Some (str "null")
  | VBool b => Some (if b then str "true" else str "false")
  | VNum n => Some (Number_toString n)
  | VStr s => Some s
  | VArr items =>
      let item x :=
        match x with VUndefined | VNull => Some [] | _ => ToString x end in
      (fix join (l : list value) : option jsstring :=
         match l with
         | [] => Some []
         | [x] => item x
         | x :: l' =>
             match item x, join l' with
             | Some a, Some b => Some (a ++ 44%N :: b)
             | _, _ => None
             end
         end) items
  | VObj props =>
      if has_key (str "toString") props then None
      else Some (str "[object Object]")
  end.

(** ToNumber; [None] is the TypeError of ToPrimitive.  An array or an
    object is first turned into a primitive value: [valueOf] returns the
    object itself, so the primitive is its string (an object is
    "[object Object]", not a number; an empty array is 0, an array of two
    elements or more is not a number, and [[x]] is the number of the
    string of [x]). *)
Definition ToNumber (v : value) : option number :=
  match v with
  | VUndefined => Some NaN
  | VNull => Some zero
  | VBool b => Some (if b then of_Z 1 else zero)
  | VNum n => Some n
  | VStr s => Some (StringToNumber s)
  | VArr _ | VObj _ => option_map StringToNumber (ToString v)
  end.

(** [x > y] where [x] is a number and [y] any value of [JSON.parse]: both
    sides are compared as numbers; [None] when the conversion of [y]
    throws. *)
Definition gt_value (x : number) (y : value) : option bool :=
  option_map (fun n => ltb n x) (ToNumber y).

(** ** [TextEncoder] *)

Definition is_high_surrogate (c : N) : bool := (55296 <=? c)%N && (c <=? 56319)%N.
Definition is_low_surrogate (c : N) : bool := (56320 <=? c)%N && (c <=? 57343)%N.

(** The UTF-8 bytes of a code point. *)
Definition utf8_of_code_point (c : N) : list N :=
  (if c <? 128 then [c]
   else if c <? 2048 then [192 + c / 64; 128 + c mod 64]
   else if c <? 65536
   then [224 + c / 4096; 128 + (c / 64) mod 64; 128 + c mod 64]
   else [240 + c / 262144; 128 + (c / 4096) mod 64;
         128 + (c / 64) mod 64; 128 + c mod 64])%N.

(** The UTF-8 bytes of a string; a surrogate pair is one code point and a
    lone surrogate becomes U+FFFD. *)
Fixpoint utf8 (s : jsstring) : list N :=
  match s with
  | [] => []
  | c :: r =>
      if is_high_surrogate c then
        match r with
        | d :: r' =>
            if is_low_surrogate d
            then utf8_of_code_point
                   (65536 + (c - 55296) * 1024 + (d - 56320))%N ++ utf8 r'
            else utf8_of_code_point 65533 ++ utf8 r
        | [] => utf8_of_code_point 65533
        end
      else if is_low_surrogate c then utf8_of_code_point 65533 ++ utf8 r
      else utf8_of_code_point c ++ utf8 r
  end.

(** [new TextEncoder().encode(text)]: the argument defaults to the empty
    string when it is [undefined], and is otherwise turned into a string;
    [None] when that conversion throws. *)
Definition TextEncoder_encode (text : value) : option (list N) :=
  match text with
  | VUndefined => Some []
  | _ => option_map utf8 (ToString text)
  end.

(** ** [Array.prototype.sort]

    The order in which a sort calls the comparison function is the
    engine's.  Two algorithms are modelled: the one of the V8 engine, which
    runs the route (runtime "edge"), and the classical insertion sort, which
    calls the comparison function with its arguments the other way round.
    For a consistent comparison function every sort returns the same
    array; the comparison function of [genBillingsTable] is not one. *)

Section Sort.

Variable A : Type.

(** The comparison function of the caller: a number for [(x, y)]. *)
Variable comparefn : A -> A -> number.

(** SortCompare: a NaN result counts as +0. *)
Definition SortCompare (x y : A) : number :=
  let v := comparefn x y in if is_nan v then zero else v.

Definition negative (order : number) : bool := ltb order zero.
Definition positive_order (order : number) : bool := ltb zero order.

(** V8, CountAndMakeRun: how many elements after the second extend the run
    that the first two started; [cur] is compared with the element before
    it, as [Compare(cur, prev)]. *)
Fixpoint extend_run (descending : bool) (prev : A) (rest : list A) : nat :=
  match rest with
  | [] => O
  | cur :: rest' =>
      let order := SortCompare cur prev in
      if descending
      then if negative order then S (extend_run descending cur rest') else O
      else if negative order then O else S (extend_run descending cur rest')
  end.

(** The length of the initial run, and the array with that run reversed in
    place when it was descending. *)
Definition CountAndMakeRun (l : list A) : nat * list A :=
  match l with
  | a0 :: a1 :: rest =>
      let descending := negative (SortCompare a1 a0) in
      let n := S (S (extend_run descending a1 rest)) in
      (n, if descending then rev (firstn n l) ++ skipn n l else l)
  | _ => (length l, l)
  end.

(** V8, BinaryInsertionSort: the place of [pivot] in the sorted prefix,
    searched between [left] and [right] with [Compare(pivot, a[mid])]. *)
Fixpoint binary_search (fuel : nat) (pivot : A) (sorted : list A)
  (left right : nat) : nat :=
  match fuel with
  | O => left
  | S f =>
      if Nat.ltb left right then
        let mid := (left + Nat.div2 (right - left))%nat in
        match nth_error sorted mid with
        | Some x =>
            if negative (SortCompare pivot x)
            then binary_search f pivot sorted left mid
            else binary_search f pivot sorted (S mid) right
        | None => left
        end
      else left
  end.

Fixpoint binary_insertion (sorted rest : list A) : list A :=
  match rest with
  | [] => sorted
  | pivot :: rest' =>
      let at_ := binary_search (S (length sorted)) pivot sorted O (length sorted) in
      binary_insertion (firstn at_ sorted ++ pivot :: skipn at_ sorted) rest'
  end.

(** V8's sort of an array of fewer than 64 elements (its minimal run then
    spans the array): the initial run, then binary insertion of the rest.
    Longer arrays, whose runs V8 merges, are outside this model. *)
Definition sort_v8 (l : list A) : list A :=
  let (n, l') := CountAndMakeRun l in
  binary_insertion (firstn n l') (skipn n l').

(** Insertion sort: [element] moves left past every [tmp] before it with
    [comparefn(tmp, element) > 0].  [before] is the sorted prefix, nearest
    element first. *)
Fixpoint insert_left (element : A) (before : list A) : list A :=
  match before with
  | [] => [element]
  | tmp :: before' =>
      if positive_order (SortCompare tmp element)
      then tmp :: insert_left element before'
      else element :: before
  end.

Definition sort_insertion (l : list A) : list A :=
  rev (fold_left (fun before element => insert_left element before) l []).

End Sort.

Arguments SortCompare {A}.
Arguments CountAndMakeRun {A}.
Arguments sort_v8 {A}.
Arguments sort_insertion {A}.

(** ** The controller of a [ReadableStream] (WHATWG Streams)

    The stream is readable, closed or errored.  Chunks wait in the queue
    until the consumer reads them.  A close request closes the stream once
    the queue is empty. *)

Inductive stream_state : Type := Readable | Closed | Errored.

Definition chunk : Type := list N.

Record controller : Type := mkController {
  state : stream_state;
  closeRequested : bool;
  queue : list chunk
}.

Definition new_controller : controller := mkController Readable false [].

Definition CanCloseOrEnqueue (c : controller) : bool :=
  match state c with
  | Readable => negb (closeRequested c)
  | _ => false
  end.

(** [controller.close()]; [None] is the TypeError it throws when the stream
    can no longer be closed. *)
Definition close (c : controller) : option controller :=
  if CanCloseOrEnqueue c then
    Some (match queue c with
          | [] => mkController Closed true []
          | q => mkController Readable true q
          end)
  else None.

(** [controller.enqueue(chunk)]; [None] is the TypeError it throws after a
    close request or in a stream that is no longer readable. *)
Definition enqueue (c : controller) (x : chunk) : option controller :=
  if CanCloseOrEnqueue c
  then Some (mkController Readable false (queue c ++ [x]))
  else None.

(** [controller.error(e)]: a readable stream drops its queue and becomes
    errored; any other stream is left as it is. *)
Definition error (c : controller) : controller :=
  match state c with
  | Readable => mkController Errored (closeRequested c) []
  | _ => c
  end.

(** One read of the consumer: the chunk it gets, if one is waiting. *)
Definition read (c : controller) : option chunk * controller :=
  match state c, queue c with
  | Readable, x :: q =>
      (Some x,
       match q, closeRequested c with
       | [], true => mkController Closed true []
       | _, _ => mkController Readable (closeRequested c) q
       end)
  | _, _ => (None, c)
  end.

End JS.

(* ================================================================== *)
(** * The route *)
(* ================================================================== *)

Module Route.

Import JS.

(** ** Types of the request and of the response *)

Inductive Role : Type := system | user | assistant.

(** [ChatMessage] of [~/types]. *)
Record ChatMessage : Type := mkMessage {
  role : Role;
  content : jsstring
}.

(** The JSON body of the request, with the types that [post] gives its
    fields; [None] is a field that the request leaves out. *)
Record RequestBody : Type := mkBody {
  messages : option (list ChatMessage);
  key : option jsstring;
  temperature : option number;
  password : option jsstring;
  model : option jsstring
}.

(** [ParsedEvent | ReconnectInterval] of eventsource-parser. *)
Inductive StreamEvent : Type :=
| ParsedEvent (data : jsstring)
| ReconnectInterval (value : number).

(** [Billing]. [totalGranted] is the [hard_limit_usd] of the upstream as
    it came; the other numbers are results of arithmetic. *)
Record Billing : Type := mkBilling {
  billing_key : jsstring;
  rate : number;
  totalGranted : value;
  totalUsed : number;
  totalAvailable : number
}.

(** A row of the billing table: the key cut to 8 code units, then either
    the mark of an unavailable key or the three amounts with the rate. *)
Inductive Row : Type :=
| RowUnavailable (key8 : jsstring)
| RowBalance (key8 : jsstring) (available rate_ used : number) (granted : value).

(** The body of a [Response]. *)
Inductive Body : Type :=
| BodyError (message : jsstring)
  (** [JSON.stringify({ error: { message } })] for the message of an
      [Error] of the route or of a rejected call *)
| BodyEngineError (e : EngineError)
  (** [JSON.stringify({ error: { message } })] for the message of an
      error that the engine threw *)
| BodyTable (rows : list Row)
  (** the text of [genBillingsTable] *)
| BodyUpstream (payload : option (list chunk))
  (** the body of an upstream response, as received; [None] is the
      [null] body of a response that has none *)
| BodyStream (events : list StreamEvent)
  (** the [ReadableStream] that [streamParser] feeds from these events *)
| BodyFailedStream
  (** the [ReadableStream] whose [start] throws before any event: the
      body to iterate is [null]; the stream is errored and delivers
      nothing *).

Record Response : Type := mkResponse {
  status : Z;
  statusText : jsstring;
  body : Body
}.

(** [new Response(body)] and [new Response(body, { status })] for the
    statuses 400 and 500 that the route writes itself. *)
Definition Response_of (b : Body) : Response := mkResponse 200 [] b.
Definition Response_with_status (b : Body) (st : Z) : Response :=
  mkResponse st [] b.

(** A ByteString: every code unit is a byte. *)
Definition is_byte_string (s : jsstring) : bool :=
  forallb (fun c => (c <=? 255)%N) s.

(** The reason-phrase production: tabs, spaces, visible ASCII characters
    and the bytes from 128 to 255. *)
Definition is_reason_phrase (s : jsstring) : bool :=
  forallb (fun c => (N.eqb c 9 || ((32 <=? c) && (c <=? 126))
                     || ((128 <=? c) && (c <=? 255)))%N) s.

(** The statuses of a response without a body. *)
Definition null_body_status (st : Z) : bool :=
  (st =? 101) || (st =? 103) || (st =? 204) || (st =? 205) || (st =? 304).

Definition has_body (b : Body) : bool :=
  match b with
  | BodyUpstream None => false
  | _ => true
  end.

(** [new Response(body, { status, statusText })].  The members of the
    init dictionary are converted first: [status] to an unsigned short
    (modulo 2^16) and [statusText] to a ByteString, which throws a
    TypeError for a code unit above 255; a status and a status text read
    from another response are left as they are by this.  Then the
    constructor throws a RangeError for a status outside 200..599, a
    TypeError for a status text that is no reason phrase, and a TypeError
    for a body together with a status that allows none, in this order. *)
Definition Response_new (b : Body) (st : Z) (text : jsstring)
  : EngineError + Response :=
  let st := st mod 65536 in
  if negb (is_byte_string text) then inl TypeError_statusText
  else if negb ((200 <=? st) && (st <=? 599)) then inl RangeError_status
  else if negb (is_reason_phrase text) then inl TypeError_statusText
  else if has_body b && null_body_status st then inl TypeError_null_body_status
  else inr (mkResponse st text b).

(** [response.ok]. *)
Definition ok (r : Response) : bool :=
  (200 <=? status r) && (status r <=? 299).

(** ** What the module reads at load time *)

(** The environment variables, and the two constants that the route
    imports from [~/system]: the table of default ceilings, an object
    with a property per model, and the default model. *)
Record Config : Type := mkConfig {
  OPENAI_API_KEY : option jsstring;
  PASSWORD : option jsstring;
  MAX_INPUT_TOKENS : option jsstring;
  TIMEOUT : option jsstring;
  defaultMaxInputTokens : object;
  defaultModel : jsstring
}.

(** An optional string is truthy when it is there and not empty. *)
Definition nonempty (v : option jsstring) : bool :=
  match v with
  | Some (_ :: _) => true
  | _ => false
  end.

(** [import.meta.env.OPENAI_API_KEY || ""]. *)
Definition localKey (cfg : Config) : jsstring :=
  match OPENAI_API_KEY cfg with
  | Some k => k
  | None => []
  end.

(** [Number(import.meta.env.TIMEOUT)]. *)
Definition timeout (cfg : Config) : number :=
  match TIMEOUT cfg with
  | Some t => StringToNumber t
  | None => NaN
  end.

(** The own enumerable properties that [{...v}] copies from a value of
    [JSON.parse]: the properties of an object, the indexed elements of an
    array, the indexed code units of a string, nothing otherwise. *)
Definition own_properties (v : value) : object :=
  match v with
  | VObj o => o
  | VArr items =>
      map (fun p => (Z_digits (Z.of_nat (fst p)), snd p))
          (combine (seq 0 (length items)) items)
  | VStr s =>
      map (fun p => (Z_digits (Z.of_nat (fst p)), VStr [snd p]))
          (combine (seq 0 (length s)) s)
  | _ => []
  end.

(** [maxInputTokens] after the module has loaded: the default table;
    with MAX_INPUT_TOKENS an integer, that integer for every model of the
    table; with MAX_INPUT_TOKENS another JSON text, its properties laid
    over the default table; the default table when it is no JSON text. *)
Definition maxInputTokens (cfg : Config) : object :=
  match MAX_INPUT_TOKENS cfg with
  | Some ((_ :: _) as v) =>
      if isInteger (StringToNumber v)
      then fold_left (fun acc kv => set (fst kv) (VNum (StringToNumber v)) acc)
                     (defaultMaxInputTokens cfg) []
      else match JSON_parse v with
           | Some parsed => spread (defaultMaxInputTokens cfg) (own_properties parsed)
           | None => defaultMaxInputTokens cfg
           end
  | _ => defaultMaxInputTokens cfg
  end.

(** [import.meta.env.PASSWORD]. *)
Definition pwd (cfg : Config) : option jsstring := PASSWORD cfg.

(** ** The helpers that the route imports from [~/utils] *)

(** Modelled from the spec: [splitKeys] of [~/utils] is missing; the spec
    says it "splits on whitespace/comma/newline, discards empty tokens". *)
Fixpoint splitKeys_from (s : jsstring) (cur : jsstring) : list jsstring :=
  let flush (rest : list jsstring) :=
    match cur with [] => rest | _ => rev cur :: rest end in
  match s with
  | [] => flush []
  | c :: s' =>
      if is_space c || N.eqb c 44
      then flush (splitKeys_from s' [])
      else splitKeys_from s' (c :: cur)
  end.

Definition splitKeys (s : jsstring) : list jsstring := splitKeys_from s [].

(** Modelled from the spec: [randomKey] of [~/utils] is missing; the spec
    says "uniform random selection; returns none (not an exception) on an
    empty set".  [draw] is the random draw of the call. *)
Definition randomKey (draw : nat) (keys : list jsstring) : option jsstring :=
  match keys with
  | [] => None
  | _ => nth_error keys (draw mod length keys)
  end.

(** ** The world outside the route *)

(** The upstream completion request that [post] builds. *)
Record CompletionRequest : Type := mkCompletion {
  bearer : jsstring;
  request_timeout : number;
  request_model : jsstring;
  request_messages : list ChatMessage;
  request_temperature : number
}.

(** A response of the upstream completion endpoint, as [fetch] delivers
    it: its status, its status text, and its body, which is [null]
    ([None]) for a response that has none. *)
Record Upstream : Type := mkUpstream {
  up_status : Z;
  up_statusText : jsstring;
  up_body : option (list chunk)
}.

(** What a network call comes to: it rejects with an error, or it
    delivers a response. *)
Inductive Fetched (A : Type) : Type :=
| Rejected (message : jsstring)
| Delivered (response : A).
Arguments Rejected {A}.
Arguments Delivered {A}.

Inductive BillingEndpoint : Type := subscription | usage.

(** A sort of the engine: [array.sort(comparefn)]. *)
Definition Sorter : Type :=
  forall A : Type, (A -> A -> number) -> list A -> list A.

(** Everything [post] gets from outside: the tokenizer of [~/utils/tokens],
    the draw of [randomKey], the upstream completion endpoint, the events
    that eventsource-parser makes of a body, the two billing endpoints
    (the text of the body that answers a key), and the sort of the
    engine. *)
Record World : Type := mkWorld {
  countTokens : jsstring -> number;
  draw : nat;
  fetchWithTimeout : CompletionRequest -> Fetched Upstream;
  createParser : list chunk -> list StreamEvent;
  fetch : BillingEndpoint -> jsstring -> Fetched jsstring;
  Array_sort : Sorter
}.

(** ** [fetchBilling] *)

(** [await fetch(url, { headers }).then(r => r.json())]: [None] when the
    call rejects or the body is no JSON text. *)
Definition fetch_json (w : World) (e : BillingEndpoint) (k : jsstring)
  : option value :=
  match fetch w e k with
  | Rejected _ => None
  | Delivered text => JSON_parse text
  end.

(** The body of the [try] block; [None] when it throws. *)
Definition fetchBilling_try (w : World) (k : jsstring) : option Billing :=
  match fetch_json w subscription k with
  | None => None
  | Some subscriptionData =>
      match get subscriptionData (str "error") with
      | None => None
      | Some err =>
          (* subscriptionData.error?.message *)
          if truthy (get_opt err (str "message")) then None
          else
            let totalGranted := get_opt subscriptionData (str "hard_limit_usd") in
            match fetch_json w usage k with
            | None => None
            | Some usageData =>
                match get usageData (str "total_usage") with
                | None => None
                | Some total_usage =>
                    (* usageData.total_usage / 100 *)
                    match ToNumber total_usage with
                    | None => None
                    | Some used =>
                        let totalUsed := div used (of_Z 100) in
                        (* totalGranted - totalUsed *)
                        match ToNumber totalGranted with
                        | None => None
                        | Some granted =>
                            let totalAvailable := sub granted totalUsed in
                            Some {| billing_key := k;
                                    rate := div totalAvailable granted;
                                    totalGranted := totalGranted;
                                    totalUsed := totalUsed;
                                    totalAvailable := totalAvailable |}
                        end
                    end
                end
            end
      end
  end.

(** The record of the [catch] block. *)
Definition unusable (k : jsstring) : Billing :=
  {| billing_key := k;
     rate := zero;
     totalGranted := VNum zero;
     totalUsed := zero;
     totalAvailable := zero |}.

Definition fetchBilling (w : World) (k : jsstring) : Billing :=
  match fetchBilling_try w k with
  | Some b => b
  | None => unusable k
  end.

(** ** [genBillingsTable] *)

(** The comparison function given to [sort]:
    [(m, n) => (m.totalGranted === 0 ? -1 : n.rate - m.rate)]. *)
Definition compareBillings (m n : Billing) : number :=
  if is_number_zero (totalGranted m) then of_Z (-1)
  else sub (rate n) (rate m).

Definition row (k : Billing) : Row :=
  if is_number_zero (totalGranted k)
  then RowUnavailable (slice0 8 (billing_key k))
  else RowBalance (slice0 8 (billing_key k)) (totalAvailable k) (rate k)
                  (totalUsed k) (totalGranted k).

(** [billings.sort(...)]: the records in the order of the table, under
    the sort [sort] of the engine. *)
Definition sorted_billings (sort : Sorter) (billings : list Billing)
  : list Billing :=
  sort Billing compareBillings billings.

(** The rows under the two header lines. *)
Definition genBillingsTable (sort : Sorter) (billings : list Billing)
  : list Row :=
  map row (sorted_billings sort billings).

(** ** The stream of the response: [streamParser] *)

(** The [try] block up to [text]: [json.choices[0].delta?.content] of the
    parsed payload; [None] when [JSON.parse] or a property read throws. *)
Definition delta_content (data : jsstring) : option value :=
  match JSON_parse data with
  | None => None
  | Some json =>
      match get json (str "choices") with
      | None => None
      | Some choices =>
          match get0 choices with
          | None => None
          | Some choice =>
              match get choice (str "delta") with
              | None => None
              | Some delta => Some (get_opt delta (str "content"))
              end
          end
      end
  end.

(** [streamParser(event)] on the controller [c]; [None] when an exception
    leaves the function (only [controller.close()] is outside the [try]).
    Inside the [try], [JSON.parse], the property reads, [encoder.encode]
    and [controller.enqueue] may throw; the [catch] calls
    [controller.error]. *)
Definition streamParser (event : StreamEvent) (c : controller)
  : option controller :=
  match event with
  | ReconnectInterval _ => Some c
  | ParsedEvent data =>
      if string_eqb data (str "[DONE]") then close c
      else
        match delta_content data with
        | Some text =>
            match TextEncoder_encode text with
            | Some bytes =>
                match enqueue c bytes with
                | Some c' => Some c'
                | None => Some (error c)
                end
            | None => Some (error c)
            end
        | None => Some (error c)
        end
  end.

(** The stream while the response is sent: its controller, whether
    [start] is still feeding events, and the chunks that the consumer has
    read so far. *)
Record Stream : Type := mkStream {
  controller_of : controller;
  feeding : bool;
  received : list chunk
}.

Definition new_stream : Stream := mkStream new_controller true [].

(** The stream of [BodyFailedStream]: [start] has thrown, the stream is
    errored and nothing feeds it. *)
Definition failed_stream : Stream := mkStream (error new_controller) false [].

(** What happens to the stream: the parser hands an event to
    [streamParser], or the consumer reads. *)
Inductive Action : Type :=
| Feed (event : StreamEvent)
| Read.

(** An exception that leaves [streamParser] ends the loop of [start]; the
    promise of [start] rejects, which errors the controller. *)
Definition step (s : Stream) (a : Action) : Stream :=
  match a with
  | Feed event =>
      if feeding s then
        match streamParser event (controller_of s) with
        | Some c => mkStream c true (received s)
        | None => mkStream (error (controller_of s)) false (received s)
        end
      else s
  | Read =>
      match read (controller_of s) with
      | (Some x, c) => mkStream c (feeding s) (received s ++ [x])
      | (None, c) => mkStream c (feeding s) (received s)
      end
  end.

Definition run (s : Stream) (actions : list Action) : Stream :=
  fold_left step actions s.

(** The events among the actions, in order. *)
Fixpoint events_of (actions : list Action) : list StreamEvent :=
  match actions with
  | [] => []
  | Feed e :: l => e :: events_of l
  | Read :: l => events_of l
  end.

(** The bytes that the consumer has read. *)
Definition received_bytes (s : Stream) : list N := concat (received s).

(** ** [post] *)

(** The calls that leave the route on the completion path, in the order
    in which they are made. *)
Inductive Call : Type :=
| call_randomKey (keys : list jsstring)
| call_countTokens (text : jsstring)
| call_fetchWithTimeout (request : CompletionRequest).

(** What a [throw] carries to the outer [catch]: an [Error] of the route
    with its message, or an error of the engine. *)
Inductive Exception : Type :=
| Error_with (message : jsstring)
| Error_of_engine (e : EngineError).

(** A computation that logs its calls and may throw. *)
Inductive Outcome (A : Type) : Type :=
| Returned (a : A)
| Thrown (err : Exception).
Arguments Returned {A}.
Arguments Thrown {A}.

Definition M (A : Type) : Type := list Call -> Outcome A * list Call.

Definition ret {A} (a : A) : M A := fun log => (Returned a, log).
Definition throw {A} (message : jsstring) : M A :=
  fun log => (Thrown (Error_with message), log).
Definition raise {A} (e : EngineError) : M A :=
  fun log => (Thrown (Error_of_engine e), log).
Definition bind {A B} (c : M A) (k : A -> M B) : M B :=
  fun log =>
    match c log with
    | (Returned a, log') => k a log'
    | (Thrown err, log') => (Thrown err, log')
    end.
Definition call (c : Call) : M unit := fun log => (Returned tt, log ++ [c]).

Notation "x <- c ;; k" := (bind c (fun x => k))
  (at level 61, c at next level, right associativity).
Notation "c ;;; k" := (bind c (fun _ => k))
  (at level 61, right associativity).

Definition error_too_long_conversation : jsstring :=
  str "This conversation is too long because the continuous conversation option is turned on, please clear some of the content and try again, or turn off the continuous conversation option.".
Definition error_too_long : jsstring := str "It's too long, shorten it a bit.".
Definition error_password : jsstring :=
  str "The password is incorrect, please contact the webmaster.".
Definition error_no_text : jsstring := str " No text was entered".
Definition error_builtin_balance : jsstring :=
  str "If the OpenAI API key is not filled in, the built-in key will not be queried.".
Definition error_no_key : jsstring :=
  str "The OpenAI API key is not filled in, or the key is incorrect.".

(** [pwd && pwd !== password]. *)
Definition password_rejected (cfg : Config) (b : RequestBody) : bool :=
  nonempty (pwd cfg) &&
  negb match pwd cfg, password b with
       | Some p, Some q => string_eqb p q
       | _, _ => false
       end.

(** [messages.reduce((acc, cur) => acc + countTokens(cur.content), 0)]. *)
Fixpoint count_tokens (w : World) (msgs : list ChatMessage) (acc : number)
  : M number :=
  match msgs with
  | [] => ret acc
  | cur :: rest =>
      call (call_countTokens (content cur)) ;;;
      count_tokens w rest (add acc (countTokens w (content cur)))
  end.

(** The ceiling of the check:
    [body.key ? defaultMaxInputTokens[model] : maxInputTokens[model]]. *)
Definition limit (cfg : Config) (b : RequestBody) (model_ : jsstring) : value :=
  if nonempty (key b)
  then lookup model_ (defaultMaxInputTokens cfg)
  else lookup model_ (maxInputTokens cfg).

(** [!timeout || Number.isNaN(timeout) ? 30000 : timeout]. *)
Definition effective_timeout (cfg : Config) : number :=
  if is_zero (timeout cfg) || is_nan (timeout cfg) then of_Z 30000
  else timeout cfg.

(** The billing answer of both commands. *)
Definition billings_response (w : World) (keys : list jsstring) : Response :=
  Response_of (BodyTable (genBillingsTable (Array_sort w)
                            (map (fetchBilling w) keys))).

(** The destructured body: [key = localKey], [temperature = 0.6] and
    [model = defaultModel] when the request leaves them out. *)
Definition key_of (cfg : Config) (b : RequestBody) : jsstring :=
  match key b with Some k => k | None => localKey cfg end.
Definition temperature_of (b : RequestBody) : number :=
  match temperature b with Some t => t | None => of_decimal false 6 (-1) end.
Definition model_of (cfg : Config) (b : RequestBody) : jsstring :=
  match model b with Some m => m | None => defaultModel cfg end.

(** [messages.at(-1).content.trim()]. *)
Definition last_content (first : ChatMessage) (msgs : list ChatMessage)
  : jsstring :=
  trim (content (last msgs first)).

(** The request to the completion endpoint. *)
Definition completion_request (cfg : Config) (b : RequestBody)
  (apiKey : jsstring) (msgs : list ChatMessage) : CompletionRequest :=
  {| bearer := apiKey;
     request_timeout := effective_timeout cfg;
     request_model :=
       match model_of cfg b with
       | [] => str "gpt-3.5-turbo"
       | m => m
       end;
     request_messages := msgs;
     request_temperature := temperature_of b |}.

(** [rawRes]: the response of the upstream, or the response that the
    [catch] makes of a rejection.  The response of the upstream is one
    that [fetch] has made, with the status, the status text and the body
    that the upstream sent. *)
Definition rawRes_of (w : World) (request : CompletionRequest) : Response :=
  match fetchWithTimeout w request with
  | Rejected message => Response_with_status (BodyError message) 500
  | Delivered u =>
      mkResponse (up_status u) (up_statusText u) (BodyUpstream (up_body u))
  end.

(** What [post] does once [rawRes] is there.  A response that is not ok
    is relayed through [new Response(rawRes.body, { status, statusText })],
    which may throw.  Otherwise the answer is [new Response(stream)]: the
    stream that [streamParser] feeds from the events of the body, or,
    when the body is [null], the stream whose [start] throws on iterating
    it (a body that is ok is always one of the upstream). *)
Definition answer (w : World) (rawRes : Response) : EngineError + Response :=
  if negb (ok rawRes) then
    Response_new (body rawRes) (status rawRes) (statusText rawRes)
  else
    inr (Response_of
           match body rawRes with
           | BodyUpstream (Some payload) => BodyStream (createParser w payload)
           | BodyUpstream None => BodyFailedStream
           | other => other
           end).

(** The end of [post]: the answer is returned, or the error of the
    constructor is thrown. *)
Definition respond (w : World) (rawRes : Response) : M Response :=
  match answer w rawRes with
  | inr r => ret r
  | inl e => raise e
  end.

(** The body of the outer [try] block. *)
Definition post_try (cfg : Config) (w : World) (b : RequestBody) : M Response :=
  if password_rejected cfg b then throw error_password
  else
    match messages b with
    | None | Some [] => throw error_no_text
    | Some ((first :: _) as msgs) =>
        let content_ := last_content first msgs in
        if startsWith content_ (str "Check the balance") then
          if negb (string_eqb (key_of cfg b) (localKey cfg))
          then ret (billings_response w (splitKeys (key_of cfg b)))
          else throw error_builtin_balance
        else if startsWith content_ (str "sk-") then
          ret (billings_response w (splitKeys content_))
        else
          call (call_randomKey (splitKeys (key_of cfg b))) ;;;
          match randomKey (draw w) (splitKeys (key_of cfg b)) with
          | None | Some [] => throw error_no_key
          | Some apiKey =>
              tokens <- count_tokens w msgs zero ;;
              match gt_value tokens (limit cfg b (model_of cfg b)) with
              | None => raise TypeError_to_primitive
              | Some true =>
                  if (1 <? length msgs)%nat
                  then throw error_too_long_conversation
                  else throw error_too_long
              | Some false =>
                  let request := completion_request cfg b apiKey msgs in
                  call (call_fetchWithTimeout request) ;;;
                  respond w (rawRes_of w request)
              end
          end
    end.

(** The body that the outer [catch] writes:
    [JSON.stringify({ error: { message: err.message } })]. *)
Definition envelope (err : Exception) : Body :=
  match err with
  | Error_with message => BodyError message
  | Error_of_engine e => BodyEngineError e
  end.

(** [post]: the response, and the calls made on the way. *)
Definition post (cfg : Config) (w : World) (b : RequestBody)
  : Response * list Call :=
  match post_try cfg w b [] with
  | (Returned r, log) => (r, log)
  | (Thrown err, log) => (Response_with_status (envelope err) 400, log)
  end.

End Route.

(* ================================================================== *)
(** * Concrete configurations, worlds and requests *)
(* ================================================================== *)

Module Examples.

Import JS Route.

(** A configuration with a built-in key and no override. *)
Definition cfg0 : Config :=
  {| OPENAI_API_KEY := Some (str "sk-builtin");
     PASSWORD := None;
     MAX_INPUT_TOKENS := None;
     TIMEOUT := None;
     defaultMaxInputTokens :=
       [(str "gpt-3.5-turbo", VNum (of_Z 3072)); (str "gpt-4", VNum (of_Z 6144))];
     defaultModel := str "gpt-3.5-turbo" |}.

(** The same with a global override, and with a per-model override. *)
Definition cfg_global : Config :=
  {| OPENAI_API_KEY := Some (str "sk-builtin");
     PASSWORD := None;
     MAX_INPUT_TOKENS := Some (str "100000");
     TIMEOUT := None;
     defaultMaxInputTokens := defaultMaxInputTokens cfg0;
     defaultModel := str "gpt-3.5-turbo" |}.

Definition cfg_per_model : Config :=
  {| OPENAI_API_KEY := Some (str "sk-builtin");
     PASSWORD := None;
     MAX_INPUT_TOKENS := Some (json_text "{'gpt-4': 100}");
     TIMEOUT := None;
     defaultMaxInputTokens := defaultMaxInputTokens cfg0;
     defaultModel := str "gpt-3.5-turbo" |}.

(** A configuration with no built-in key. *)
Definition cfg_nokey : Config :=
  {| OPENAI_API_KEY := None;
     PASSWORD := None;
     MAX_INPUT_TOKENS := None;
     TIMEOUT := None;
     defaultMaxInputTokens := defaultMaxInputTokens cfg0;
     defaultModel := str "gpt-3.5-turbo" |}.

(** Billing endpoints that answer the key sk-b with a limit of 10 and a
    usage of 500 hundredths, and fail for every other key. *)
Definition fetch_only_b (e : BillingEndpoint) (k : jsstring) : Fetched jsstring :=
  if string_eqb k (str "sk-b") then
    Delivered match e with
              | subscription => json_text "{'hard_limit_usd':10}"
              | usage => json_text "{'total_usage':500}"
              end
  else Rejected (str "fetch failed").

(** Billing endpoints whose usage endpoint answers with an error payload. *)
Definition fetch_usage_error (e : BillingEndpoint) (k : jsstring) : Fetched jsstring :=
  Delivered match e with
            | subscription => json_text "{'hard_limit_usd':120}"
            | usage => json_text "{'error':{'message':'Rate limit reached'}}"
            end.

(** Billing endpoints of an account with nothing granted and nothing used. *)
Definition fetch_zero_grant (e : BillingEndpoint) (k : jsstring) : Fetched jsstring :=
  Delivered match e with
            | subscription => json_text "{'hard_limit_usd':0}"
            | usage => json_text "{'total_usage':0}"
            end.

(** An upstream that answers every completion request with 429. *)
Definition too_many_requests : Upstream :=
  mkUpstream 429 (str "Too Many Requests")
             (Some [utf8 (json_text "{'error':{'message':'Rate limit reached'}}")]).

(** A world: a tokenizer that counts code units, the first key of the
    pool, the 429 upstream, and the given billing endpoints and sort. *)
Definition world (billing : BillingEndpoint -> jsstring -> Fetched jsstring)
  (sort : Sorter) : World :=
  {| countTokens := fun s => of_Z (Z.of_nat (length s));
     draw := 0;
     fetchWithTimeout := fun _ => Delivered too_many_requests;
     createParser := fun _ => [];
     fetch := billing;
     Array_sort := sort |}.

Definition w0 : World := world fetch_only_b (@sort_v8).

(** A request of one user message, with or without a key of the caller. *)
Definition ask (text : jsstring) (k : option jsstring) : RequestBody :=
  {| messages := Some [mkMessage user text];
     key := k;
     temperature := None;
     password := None;
     model := None |}.

(** A request of several messages. *)
Definition converse (msgs : list ChatMessage) (k : option jsstring) : RequestBody :=
  {| messages := Some msgs;
     key := k;
     temperature := None;
     password := None;
     model := None |}.

(** The three events of the transcoder example. *)
Definition event_Hi : StreamEvent :=
  ParsedEvent (json_text "{'choices':[{'delta':{'content':'Hi'}}]}").
Definition event_there : StreamEvent :=
  ParsedEvent (json_text "{'choices':[{'delta':{'content':' there'}}]}").
Definition event_DONE : StreamEvent := ParsedEvent (str "[DONE]").

End Examples.

(* ================================================================== *)
(** * The notions that the properties speak of *)
(* ================================================================== *)

Module Spec.

Import JS Route.

(** The estimate of the token budget: the sum of the token counts of the
    messages. *)
Definition estimate (w : World) (msgs : list ChatMessage) : number :=
  fold_left (fun acc cur => add acc (countTokens w (content cur))) msgs zero.

(** The calls of the tokenizer for the messages, in order. *)
Definition counted (msgs : list ChatMessage) : list Call :=
  map (fun cur => call_countTokens (content cur)) msgs.

(** What [post] answers once [rawRes] is there: the answer, or the 400
    that the outer [catch] makes of the error of the constructor. *)
Definition reply (w : World) (rawRes : Response) : Response :=
  match answer w rawRes with
  | inr r => r
  | inl e => Response_with_status (BodyEngineError e) 400
  end.

(** The request passes every step before the key selection: the password
    is accepted, there is a message, and the last message is neither of
    the two balance commands. *)
Definition completion_path (cfg : Config) (b : RequestBody)
  (msgs : list ChatMessage) : Prop :=
  password_rejected cfg b = false /\
  messages b = Some msgs /\
  exists first rest,
    msgs = first :: rest /\
    startsWith (last_content first msgs) (str "Check the balance") = false /\
    startsWith (last_content first msgs) (str "sk-") = false.

(** The request reaches the token-budget check with the key [apiKey]. *)
Definition reaches_check (cfg : Config) (w : World) (b : RequestBody)
  (msgs : list ChatMessage) (apiKey : jsstring) : Prop :=
  completion_path cfg b msgs /\
  randomKey (draw w) (splitKeys (key_of cfg b)) = Some apiKey /\
  apiKey <> [].

(** The stream is open: [start] is feeding, the stream is readable, no
    close was requested, and [accepted] are the chunks enqueued so far
    (those read and those waiting). *)
Definition open_with (accepted : list chunk) (s : Stream) : Prop :=
  feeding s = true /\
  state (controller_of s) = Readable /\
  closeRequested (controller_of s) = false /\
  received s ++ queue (controller_of s) = accepted.

(** The stream was closed after [accepted]: it is closed as soon as no
    chunk waits, and readable until then. *)
Definition closed_with (accepted : list chunk) (s : Stream) : Prop :=
  closeRequested (controller_of s) = true /\
  received s ++ queue (controller_of s) = accepted /\
  match queue (controller_of s) with
  | [] => state (controller_of s) = Closed
  | _ => state (controller_of s) = Readable
  end.

(** The [try] block of [streamParser] up to [queue]: the bytes that
    [encoder.encode] makes of the delta of the payload; [None] when
    [JSON.parse], a property read or the encoder throws. *)
Definition encoded_delta (data : jsstring) : option chunk :=
  match delta_content data with
  | Some text => TextEncoder_encode text
  | None => None
  end.

(** [json.choices[0]]; [None] when reading it throws. *)
Definition first_choice (json : value) : option value :=
  match get json (str "choices") with
  | Some choices => get0 choices
  | None => None
  end.

(** The parsed payload has no first choice: reading [choices[0]] throws or
    gives [undefined]. *)
Definition no_first_choice (json : value) : Prop :=
  first_choice json = None \/ first_choice json = Some VUndefined.

(** The value that a per-model mapping gives the model [m]: the value of
    its last entry for that key, if it has one. *)
Definition last_value (m : jsstring) (o : object) : option value :=
  fold_left (fun r kv => if string_eqb m (fst kv) then Some (snd kv) else r)
            o None.

(** A record is unusable when [totalGranted === 0], usable when
    [totalGranted > 0]. *)
Definition is_unusable (k : Billing) : bool := is_number_zero (totalGranted k).
Definition is_usable (k : Billing) : bool :=
  match ToNumber (totalGranted k) with
  | Some granted => ltb zero granted
  | None => false
  end.

(** Every unusable record stands before every usable one. *)
Fixpoint unusable_first (l : list Billing) : bool :=
  match l with
  | [] => true
  | k :: l' =>
      (if is_usable k then forallb (fun k' => negb (is_unusable k')) l' else true)
      && unusable_first l'
  end.

(** The rates of the usable records do not increase along the list. *)
Fixpoint rates_non_increasing (l : list Billing) : bool :=
  match l with
  | [] => true
  | k :: l' =>
      (if is_usable k
       then forallb (fun k' => if is_usable k' then leb (rate k') (rate k) else true) l'
       else true)
      && rates_non_increasing l'
  end.

End Spec.

(* ================================================================== *)
(** * The host of the completion endpoint *)
(* ================================================================== *)

Module Endpoint.

Import JS Route.

(** [s.replace(/^https?:\/\//, "")]: one scheme at the start of the
    string is cut. *)
Definition strip_scheme (s : jsstring) : jsstring :=
  if startsWith s (str "https://") then skipn 8 s
  else if startsWith s (str "http://") then skipn 7 s
  else s.

(** [baseURL], from the environment variables NOGFW and
    OPENAI_API_BASE_URL (strings, or absent):
    [NOGFW ? "api.openai.com"
           : (OPENAI_API_BASE_URL || "api.openai.com").replace(...)]. *)
Definition baseURL (NOGFW OPENAI_API_BASE_URL : option jsstring) : jsstring :=
  if nonempty NOGFW then str "api.openai.com"
  else strip_scheme match OPENAI_API_BASE_URL with
                    | Some ((_ :: _) as u) => u
                    | _ => str "api.openai.com"
                    end.

(** The address that [post] calls:
    [`https://${baseURL}/v1/chat/completions`]. *)
Definition completion_url (base : jsstring) : jsstring :=
  str "https://" ++ base ++ str "/v1/chat/completions".

End Endpoint.

(* ================================================================== *)
(** * Further notions and examples *)
(* ================================================================== *)

Module Notions.

Import JS Route Spec.

(** The events of a list of payloads, in order. *)
Definition payload_events (payloads : list jsstring) : list StreamEvent :=
  map ParsedEvent payloads.

(** The action is not the sentinel event. *)
Definition not_sentinel (a : Action) : Prop :=
  a <> Feed (ParsedEvent (str "[DONE]")).

(** The actions without the reconnect-interval events. *)
Fixpoint without_reconnect (actions : list Action) : list Action :=
  match actions with
  | [] => []
  | Feed (ReconnectInterval _) :: l => without_reconnect l
  | a :: l => a :: without_reconnect l
  end.

(** Every code unit of the string is an ASCII character. *)
Definition ascii_only (s : jsstring) : Prop := Forall (fun c => (c < 128)%N) s.

(** The first column of a row. *)
Definition row_key (r : Row) : jsstring :=
  match r with
  | RowUnavailable key8 => key8
  | RowBalance key8 _ _ _ _ => key8
  end.

(** The answer 400 with the message of an [Error] thrown in [post]. *)
Definition refusal (message : jsstring) : Response :=
  Response_with_status (BodyError message) 400.

(** A sort of the engine returns the elements it was given, in some
    order, whatever the comparison function answers. *)
Definition permutes (sort : Sorter) : Prop :=
  forall (A : Type) (comparefn : A -> A -> number) (l : list A),
    Permutation (sort A comparefn l) l.

(** The lookup of [k] fails in a way that [fetchBilling] notices. *)
Definition lookup_fails (w : World) (k : jsstring) : Prop :=
  fetch_json w subscription k = None \/
  fetch_json w usage k = None \/
  (exists subscriptionData err,
     fetch_json w subscription k = Some subscriptionData /\
     get subscriptionData (str "error") = Some err /\
     truthy (get_opt err (str "message")) = true).

(** MAX_INPUT_TOKENS changes nothing: it is neither an integer nor a JSON
    text with properties. *)
Definition override_without_effect (v : jsstring) : Prop :=
  isInteger (StringToNumber v) = false /\
  (JSON_parse v = None \/
   exists parsed, JSON_parse v = Some parsed /\ own_properties parsed = []).

(** The example configuration with the override [v]. *)
Definition cfg_override (v : jsstring) : Config :=
  {| OPENAI_API_KEY := Some (str "sk-builtin");
     PASSWORD := None;
     MAX_INPUT_TOKENS := Some v;
     TIMEOUT := None;
     defaultMaxInputTokens := defaultMaxInputTokens Examples.cfg0;
     defaultModel := str "gpt-3.5-turbo" |}.

(** A world whose completion endpoint comes to [up] for every request and
    whose parser makes [events] of every body. *)
Definition world_up (up : Fetched Upstream) (events : list StreamEvent) : World :=
  {| countTokens := fun s => of_Z (Z.of_nat (length s));
     draw := 0;
     fetchWithTimeout := fun _ => up;
     createParser := fun _ => events;
     fetch := Examples.fetch_only_b;
     Array_sort := @sort_v8 |}.

(** A request of one user message with a key and a model of the caller. *)
Definition ask_model (text k m : jsstring) : RequestBody :=
  {| messages := Some [mkMessage user text];
     key := Some k;
     temperature := None;
     password := None;
     model := Some m |}.

(** The chunks of the events up to the first event that is the sentinel,
    carries no delta, or carries a content that cannot be encoded: the
    encoded contents of their deltas. *)
Fixpoint taken (events : list StreamEvent) : list chunk :=
  match events with
  | [] => []
  | ReconnectInterval _ :: l => taken l
  | ParsedEvent data :: l =>
      if string_eqb data (str "[DONE]") then []
      else match delta_content data with
           | Some text =>
               match TextEncoder_encode text with
               | Some bytes => bytes :: taken l
               | None => []
               end
           | None => []
           end
  end.

(** The controller accepts nothing more. *)
Definition stopped (s : Stream) : Prop :=
  CanCloseOrEnqueue (controller_of s) = false.

(** The chunks that the stream holds: those read and those waiting. *)
Definition held (s : Stream) : list chunk :=
  received s ++ queue (controller_of s).

End Notions.

(* ================================================================== *)
(** * Properties of the event transcoder *)
(* ================================================================== *)

Module Transcoder.

Import JS Route Spec Examples.

Lemma run_app (s : Stream) (a b : list Action) :
  run s (a ++ b) = run (run s a) b.
Proof. unfold run. apply fold_left_app. Qed.

Lemma run_feed (s : Stream) (reads rest : list Action) (e : StreamEvent) :
  run s (reads ++ Feed e :: rest) = run (step (run s reads) (Feed e)) rest.
Proof. now rewrite run_app. Qed.

(** The actions up to the first event are reads. *)
Lemma events_split (actions : list Action) (e : StreamEvent) (es : list StreamEvent) :
  events_of actions = e :: es ->
  exists reads rest,
    actions = reads ++ Feed e :: rest /\ events_of reads = [] /\ events_of rest = es.
Proof.
  induction actions as [|a actions IH]; simpl; intros H.
  - discriminate.
  - destruct a as [e'|].
    + inversion H; subst. exists [], actions. auto.
    + destruct (IH H) as (reads & rest & -> & Hr & Hs).
      exists (Read :: reads), rest. auto.
Qed.

(** A read moves the first waiting chunk to the consumer. *)
Lemma read_open (acc : list chunk) (s : Stream) :
  open_with acc s -> open_with acc (step s Read).
Proof.
  destruct s as [[st cr q] f r]. unfold open_with; simpl.
  intros (Hf & Hs & Hc & Ha); subst.
  unfold read; simpl. destruct q as [|x q]; simpl.
  - auto.
  - destruct q; simpl; rewrite <- app_assoc; auto.
Qed.

Lemma read_closed (acc : list chunk) (s : Stream) :
  closed_with acc s -> closed_with acc (step s Read).
Proof.
  destruct s as [[st cr q] f r]. unfold closed_with; simpl.
  intros (Hc & Ha & Hs); subst.
  unfold read; simpl. destruct q as [|x q]; simpl.
  - subst st. simpl. auto.
  - subst st. simpl. destruct q; simpl; rewrite <- app_assoc; auto.
Qed.

Lemma reads_open (actions : list Action) (acc : list chunk) (s : Stream) :
  events_of actions = [] -> open_with acc s -> open_with acc (run s actions).
Proof.
  revert s. induction actions as [|a actions IH]; simpl; intros s He Ho.
  - exact Ho.
  - destruct a; [discriminate|]. apply IH; [exact He|]. now apply read_open.
Qed.

Lemma reads_closed (actions : list Action) (acc : list chunk) (s : Stream) :
  events_of actions = [] -> closed_with acc s -> closed_with acc (run s actions).
Proof.
  revert s. induction actions as [|a actions IH]; simpl; intros s He Ho.
  - exact Ho.
  - destruct a; [discriminate|]. apply IH; [exact He|]. now apply read_closed.
Qed.

(** [streamParser] on a payload, by what the [try] block makes of it. *)
Lemma streamParser_payload (data : jsstring) (c : controller) :
  streamParser (ParsedEvent data) c
  = if string_eqb data (str "[DONE]") then close c
    else match encoded_delta data with
         | Some bytes =>
             match enqueue c bytes with
             | Some c' => Some c'
             | None => Some (error c)
             end
         | None => Some (error c)
         end.
Proof.
  unfold streamParser, encoded_delta.
  destruct (string_eqb data (str "[DONE]")); [reflexivity|].
  now destruct (delta_content data).
Qed.

Lemma encoded_delta_of (data : jsstring) (text : value) (bytes : chunk) :
  delta_content data = Some text ->
  TextEncoder_encode text = Some bytes ->
  encoded_delta data = Some bytes.
Proof. unfold encoded_delta. now intros -> ->. Qed.

Lemma step_payload (s : Stream) (data : jsstring) :
  feeding s = true ->
  step s (Feed (ParsedEvent data))
  = match streamParser (ParsedEvent data) (controller_of s) with
    | Some c => mkStream c true (received s)
    | None => mkStream (error (controller_of s)) false (received s)
    end.
Proof. unfold step. now intros ->. Qed.

(** An event with a delta enqueues its bytes on an open stream. *)
Lemma feed_bytes (acc : list chunk) (s : Stream) (data : jsstring) (bytes : chunk) :
  open_with acc s ->
  string_eqb data (str "[DONE]") = false ->
  encoded_delta data = Some bytes ->
  open_with (acc ++ [bytes]) (step s (Feed (ParsedEvent data))).
Proof.
  destruct s as [[st cr q] f r]. unfold open_with.
  cbn [feeding controller_of state closeRequested received queue].
  intros (Hf & Hs & Hc & Ha) Hd Ht; subst.
  rewrite step_payload by reflexivity. cbn [controller_of received].
  rewrite streamParser_payload, Hd, Ht.
  unfold enqueue, CanCloseOrEnqueue; simpl.
  rewrite app_assoc. auto.
Qed.

Lemma feed_delta (acc : list chunk) (s : Stream) (data : jsstring) (text : value)
  (bytes : chunk) :
  open_with acc s ->
  string_eqb data (str "[DONE]") = false ->
  delta_content data = Some text ->
  TextEncoder_encode text = Some bytes ->
  open_with (acc ++ [bytes]) (step s (Feed (ParsedEvent data))).
Proof.
  intros Ho Hd Ht Hb. apply feed_bytes; auto. now apply (encoded_delta_of _ text).
Qed.

(** The sentinel closes an open stream. *)
Lemma feed_DONE (acc : list chunk) (s : Stream) :
  open_with acc s ->
  closed_with acc (step s (Feed (ParsedEvent (str "[DONE]")))).
Proof.
  destruct s as [[st cr q] f r]. unfold open_with, closed_with; simpl.
  intros (Hf & Hs & Hc & Ha); subst.
  unfold close, CanCloseOrEnqueue; simpl. destruct q; simpl; auto.
Qed.

(** Once the consumer has read as often as chunks were waiting, a stream
    that was closed is in the closed state and everything is delivered. *)
Lemma drain (n : nat) (acc : list chunk) (s : Stream) :
  closed_with acc s ->
  (length (queue (controller_of s)) <= n)%nat ->
  state (controller_of (run s (repeat Read n))) = Closed /\
  received (run s (repeat Read n)) = acc.
Proof.
  revert s. induction n as [|n IH]; intros s Hc Hn.
  - simpl. destruct Hc as (_ & Ha & Hs).
    destruct (queue (controller_of s)); [|simpl in Hn; lia].
    rewrite app_nil_r in Ha. auto.
  - simpl. apply IH.
    + now apply read_closed.
    + destruct s as [[st cr q] f r]. simpl in *.
      destruct Hc as (_ & _ & Hs). simpl in Hs.
      unfold read; simpl. destruct q as [|x q]; simpl.
      * subst st. simpl. lia.
      * subst st. simpl in *. destruct q; destruct cr; simpl in *; lia.
Qed.

(** An errored stream stays as it is, whatever is fed or read. *)
Lemma errored_step (s : Stream) (a : Action) :
  state (controller_of s) = Errored ->
  controller_of (step s a) = controller_of s /\ received (step s a) = received s.
Proof.
  destruct s as [[st cr q] f r]; simpl; intros ->.
  destruct a as [[data|v]|]; simpl.
  - destruct f; simpl; auto.
    destruct (string_eqb data (str "[DONE]")); simpl; auto.
    destruct (delta_content data) as [text|]; simpl; auto.
    destruct (TextEncoder_encode text); simpl; auto.
  - destruct f; simpl; auto.
  - auto.
Qed.

Lemma errored_run (actions : list Action) (s : Stream) :
  state (controller_of s) = Errored ->
  controller_of (run s actions) = controller_of s /\
  received (run s actions) = received s.
Proof.
  revert s. induction actions as [|a actions IH]; simpl; intros s He.
  - auto.
  - destruct (errored_step s a He) as [Hc Hr].
    destruct (IH (step s a)) as [Hc' Hr'].
    + now rewrite Hc.
    + rewrite Hc', Hr', Hc, Hr. auto.
Qed.

(** A stream that is closed or errored stays as it is, whatever is fed
    or read. *)
Lemma terminal_step (s : Stream) (a : Action) :
  state (controller_of s) <> Readable ->
  controller_of (step s a) = controller_of s /\ received (step s a) = received s.
Proof.
  destruct s as [[st cr q] f r]; simpl; intros Hs.
  destruct a as [[data|v]|]; simpl.
  - destruct f; simpl; auto.
    unfold close, enqueue, error, CanCloseOrEnqueue; simpl.
    destruct (string_eqb data (str "[DONE]")); simpl;
      [destruct st; simpl; auto; now contradiction Hs|].
    destruct (delta_content data) as [text|]; simpl;
      [destruct (TextEncoder_encode text); simpl|];
      destruct st; simpl; auto; now contradiction Hs.
  - destruct f; simpl; auto.
  - unfold read; simpl. destruct st; simpl; auto. now contradiction Hs.
Qed.

Lemma terminal_run (actions : list Action) (s : Stream) :
  state (controller_of s) <> Readable ->
  controller_of (run s actions) = controller_of s /\
  received (run s actions) = received s.
Proof.
  revert s. induction actions as [|a actions IH]; simpl; intros s Hs.
  - auto.
  - destruct (terminal_step s a Hs) as [Hc Hr].
    destruct (IH (step s a)) as [Hc' Hr'].
    + now rewrite Hc.
    + rewrite Hc', Hr', Hc, Hr. auto.
Qed.

(** [controller.error] never leaves a stream readable. *)
Lemma error_terminal (c : controller) :
  state (error c) <> Readable /\
  (state c = Readable -> state (error c) = Errored /\ queue (error c) = []).
Proof.
  unfold error. destruct c as [[] cr q]; simpl; split;
    try discriminate; auto; discriminate.
Qed.

(** A payload whose extraction throws, handed to [streamParser] on any
    stream: [controller.error] runs, the stream is not readable
    afterwards and delivers nothing more. *)
Lemma feed_throwing_anywhere (s : Stream) (data : jsstring) :
  feeding s = true ->
  string_eqb data (str "[DONE]") = false ->
  encoded_delta data = None ->
  let s' := step s (Feed (ParsedEvent data)) in
  controller_of s' = error (controller_of s) /\
  received s' = received s /\
  forall actions,
    controller_of (run s' actions) = controller_of s' /\
    received (run s' actions) = received s.
Proof.
  intros Hf Hd Ht. cbv zeta.
  rewrite (step_payload s data Hf), streamParser_payload, Hd, Ht.
  cbn [controller_of received].
  split; [reflexivity|]. split; [reflexivity|]. intros actions.
  destruct (terminal_run actions
              (mkStream (error (controller_of s)) true (received s))) as [Hc Hr].
  - apply error_terminal.
  - rewrite Hc, Hr. auto.
Qed.

(** A payload whose extraction throws errors a readable stream: the
    waiting chunks are dropped and nothing more is delivered. *)
Lemma feed_throwing (s : Stream) (data : jsstring) :
  feeding s = true ->
  state (controller_of s) = Readable ->
  string_eqb data (str "[DONE]") = false ->
  encoded_delta data = None ->
  let s' := step s (Feed (ParsedEvent data)) in
  streamParser (ParsedEvent data) (controller_of s) = Some (error (controller_of s)) /\
  state (controller_of s') = Errored /\
  queue (controller_of s') = [] /\
  received s' = received s /\
  forall actions,
    state (controller_of (run s' actions)) = Errored /\
    received (run s' actions) = received s.
Proof.
  destruct s as [[st cr q] f r].
  cbn [feeding controller_of state closeRequested received queue].
  intros -> -> Hd Ht. cbv zeta.
  rewrite step_payload by reflexivity. cbn [controller_of received].
  rewrite streamParser_payload, Hd, Ht.
  unfold error; simpl.
  split; [reflexivity|]. split; [reflexivity|]. split; [reflexivity|].
  split; [reflexivity|]. intros actions.
  destruct (errored_run actions
      (mkStream (mkController Errored cr []) true r) eq_refl) as [Hc Hr].
  rewrite Hc, Hr. auto.
Qed.

Lemma string_eqb_false (a b : jsstring) : a <> b -> string_eqb a b = false.
Proof. unfold string_eqb. destruct (list_eq_dec N.eq_dec a b); congruence. Qed.

Lemma string_eqb_true (a b : jsstring) : string_eqb a b = true -> a = b.
Proof. unfold string_eqb. destruct (list_eq_dec N.eq_dec a b); congruence. Qed.

(** A payload that is a JSON text is not the sentinel. *)
Lemma parsed_is_not_DONE (data : jsstring) (json : value) :
  JSON_parse data = Some json -> string_eqb data (str "[DONE]") = false.
Proof.
  intros Hp. destruct (string_eqb data (str "[DONE]")) eqn:E; [|reflexivity].
  apply string_eqb_true in E. subst data. vm_compute in Hp. discriminate.
Qed.

(** The payloads of the example carry the deltas "Hi" and " there". *)
Lemma delta_Hi :
  delta_content (json_text "{'choices':[{'delta':{'content':'Hi'}}]}")
  = Some (VStr (str "Hi")).
Proof. vm_compute. reflexivity. Qed.

Lemma delta_there :
  delta_content (json_text "{'choices':[{'delta':{'content':' there'}}]}")
  = Some (VStr (str " there")).
Proof. vm_compute. reflexivity. Qed.

(** C8. Fed the events Hi, there, [DONE] - whenever the consumer reads in
    between - the transcoder accepts exactly the chunks "Hi" and " there"
    in this order, ends with a close request and never errors; once the
    consumer has read the chunks (two reads at most) it has received the
    bytes "Hi there" and the stream is closed.  In general the sentinel
    [DONE] closes every open stream: nothing is added or lost, and the
    stream is in the closed state as soon as the waiting chunks are read. *)
Theorem transcoder_Hi_there_then_closed :
  (forall actions,
     events_of actions = [event_Hi; event_there; event_DONE] ->
     let s := run new_stream actions in
     received s ++ queue (controller_of s) = [str "Hi"; str " there"] /\
     closeRequested (controller_of s) = true /\
     state (controller_of s) <> Errored /\
     received_bytes (run s [Read; Read]) = str "Hi there" /\
     state (controller_of (run s [Read; Read])) = Closed)
  /\
  (forall accepted s,
     open_with accepted s ->
     let s' := step s (Feed (ParsedEvent (str "[DONE]"))) in
     closed_with accepted s' /\
     state (controller_of s') <> Errored /\
     forall n, (length (queue (controller_of s')) <= n)%nat ->
       state (controller_of (run s' (repeat Read n))) = Closed /\
       received (run s' (repeat Read n)) = accepted).
Proof.
  split.
  - intros actions He.
    destruct (events_split _ _ _ He) as (r0 & a1 & -> & Hr0 & He1).
    destruct (events_split _ _ _ He1) as (r1 & a2 & -> & Hr1 & He2).
    destruct (events_split _ _ _ He2) as (r2 & r3 & -> & Hr2 & Hr3).
    assert (H0 : open_with [] new_stream) by (repeat split).
    apply (reads_open r0) in H0; [|exact Hr0].
    apply (fun H => feed_delta _ _
             (json_text "{'choices':[{'delta':{'content':'Hi'}}]}")
             (VStr (str "Hi")) (str "Hi") H eq_refl delta_Hi eq_refl) in H0.
    apply (reads_open r1) in H0; [|exact Hr1].
    apply (fun H => feed_delta _ _
             (json_text "{'choices':[{'delta':{'content':' there'}}]}")
             (VStr (str " there")) (str " there") H eq_refl delta_there eq_refl) in H0.
    apply (reads_open r2) in H0; [|exact Hr2].
    apply feed_DONE in H0.
    apply (reads_closed r3) in H0; [|exact Hr3].
    cbv zeta. rewrite 3 run_feed.
    simpl app in H0.
    match type of H0 with closed_with _ ?t => set (s := t) in * end.
    change (closed_with [str "Hi"; str " there"] s) in H0.
    change (received s ++ queue (controller_of s) = [str "Hi"; str " there"] /\
            closeRequested (controller_of s) = true /\
            state (controller_of s) <> Errored /\
            received_bytes (run s [Read; Read]) = str "Hi there" /\
            state (controller_of (run s [Read; Read])) = Closed).
    pose proof H0 as (Hc & Ha & Hs).
    split; [exact Ha|]. split; [exact Hc|]. split.
    + destruct (queue (controller_of s)); rewrite Hs; discriminate.
    + assert (Hl : (length (queue (controller_of s)) <= 2)%nat).
      { apply (f_equal (@length chunk)) in Ha. rewrite length_app in Ha.
        simpl in Ha. lia. }
      destruct (drain 2 _ s H0 Hl) as [Hst Hrec].
      change (repeat Read 2) with [Read; Read] in *.
      split; [|exact Hst]. unfold received_bytes. rewrite Hrec. reflexivity.
  - intros accepted s Ho s'. subst s'.
    pose proof (feed_DONE _ _ Ho) as Hc. split; [exact Hc|]. split.
    + destruct Hc as (_ & _ & Hs).
      destruct (queue (controller_of _)); rewrite Hs; discriminate.
    + intros n Hn. now apply drain.
Qed.

(** The example with the consumer reading after the first event and at
    the end, and the sentinel on the stream after the first event. *)
Lemma transcoder_Hi_there_witness :
  received_bytes
    (run new_stream [Feed event_Hi; Read; Feed event_there; Feed event_DONE;
                     Read; Read])
  = str "Hi there" /\
  state (controller_of
    (run new_stream [Feed event_Hi; Read; Feed event_there; Feed event_DONE;
                     Read; Read])) = Closed /\
  closed_with [str "Hi"]
    (step (run new_stream [Feed event_Hi]) (Feed (ParsedEvent (str "[DONE]")))).
Proof.
  destruct transcoder_Hi_there_then_closed as [Hseq Hdone].
  pose proof (Hseq [Feed event_Hi; Read; Feed event_there; Feed event_DONE]
                eq_refl) as (_ & _ & _ & Hb & Hc).
  split; [exact Hb|]. split; [exact Hc|].
  refine (proj1 (Hdone [str "Hi"] (run new_stream [Feed event_Hi]) _)).
  repeat split.
Defined.

(** A payload that is no JSON text has no delta to encode. *)
Lemma malformed_has_no_delta (data : jsstring) :
  JSON_parse data = None -> encoded_delta data = None.
Proof. unfold encoded_delta, delta_content. now intros ->. Qed.

(** C9. An event whose payload is parsed (it is not the sentinel [DONE],
    which is tested before) and is no JSON text makes [JSON.parse] throw
    inside the [try], and the [catch] calls [controller.error], on every
    controller.  On every stream that is being fed, the stream is not
    readable afterwards, and whatever is fed or read after the event the
    controller stays as it is and the consumer receives nothing beyond
    what it had read before the event.  A readable stream - so every
    stream that has not been closed or errored before - is errored and
    the chunks that were waiting are dropped.  A stream fed nothing but
    that event is errored and delivers no byte. *)
Theorem malformed_event_errors_stream (data : jsstring) :
  data <> str "[DONE]" ->
  JSON_parse data = None ->
  (forall c, streamParser (ParsedEvent data) c = Some (error c)) /\
  (forall s,
     feeding s = true ->
     let s' := step s (Feed (ParsedEvent data)) in
     state (controller_of s') <> Readable /\
     received s' = received s /\
     (forall actions,
        controller_of (run s' actions) = controller_of s' /\
        received (run s' actions) = received s) /\
     (state (controller_of s) = Readable ->
      state (controller_of s') = Errored /\
      queue (controller_of s') = [] /\
      forall actions,
        state (controller_of (run s' actions)) = Errored /\
        received (run s' actions) = received s)) /\
  (let s' := step new_stream (Feed (ParsedEvent data)) in
   state (controller_of s') = Errored /\
   forall actions,
     state (controller_of (run s' actions)) = Errored /\
     received_bytes (run s' actions) = []).
Proof.
  intros Hd Hp.
  pose proof (malformed_has_no_delta data Hp) as Ht.
  apply string_eqb_false in Hd.
  assert (Hany : forall s,
     feeding s = true ->
     let s' := step s (Feed (ParsedEvent data)) in
     state (controller_of s') <> Readable /\
     received s' = received s /\
     (forall actions,
        controller_of (run s' actions) = controller_of s' /\
        received (run s' actions) = received s) /\
     (state (controller_of s) = Readable ->
      state (controller_of s') = Errored /\
      queue (controller_of s') = [] /\
      forall actions,
        state (controller_of (run s' actions)) = Errored /\
        received (run s' actions) = received s)).
  { intros s Hf. cbv zeta.
    destruct (feed_throwing_anywhere s data Hf Hd Ht) as (Hc & Hr & Hrun).
    split; [rewrite Hc; apply error_terminal|].
    split; [exact Hr|]. split; [exact Hrun|].
    intros Hs.
    destruct (feed_throwing s data Hf Hs Hd Ht) as (_ & He & Hq & _ & Hafter).
    auto. }
  split; [|split].
  - intros c. now rewrite streamParser_payload, Hd, Ht.
  - exact Hany.
  - cbv zeta.
    destruct (Hany new_stream eq_refl) as (_ & _ & _ & Hread).
    destruct (Hread eq_refl) as (He & _ & Hrun).
    split; [exact He|]. intros actions.
    destruct (Hrun actions) as [Hst Hrec].
    split; [exact Hst|]. unfold received_bytes. now rewrite Hrec.
Qed.

(** After "Hi" was read and " there" is waiting, a payload cut short errors
    the stream; the consumer keeps "Hi" and never gets " there". *)
Lemma malformed_event_witness :
  let s := run new_stream [Feed event_Hi; Read; Feed event_there] in
  let s' := step s (Feed (ParsedEvent (json_text "{'choices':[{'delta'"))) in
  state (controller_of s') = Errored /\
  queue (controller_of s') = [] /\
  received s' = [str "Hi"] /\
  forall actions,
    state (controller_of (run s' actions)) = Errored /\
    received (run s' actions) = [str "Hi"].
Proof.
  cbv zeta.
  assert (Hd : json_text "{'choices':[{'delta'" <> str "[DONE]") by discriminate.
  assert (Hp : JSON_parse (json_text "{'choices':[{'delta'") = None)
    by (vm_compute; reflexivity).
  destruct (malformed_event_errors_stream _ Hd Hp) as (_ & Hany & _).
  destruct (Hany (run new_stream [Feed event_Hi; Read; Feed event_there]) eq_refl)
    as (_ & Hr & _ & Hread).
  destruct (Hread eq_refl) as (He & Hq & Hrun).
  split; [exact He|]. split; [exact Hq|]. split; [exact Hr|]. exact Hrun.
Defined.

(** C10. A payload that is a JSON text without a first choice (reading
    [choices[0]] throws or gives [undefined], as for {} and {"choices":[]})
    is handled exactly as a payload that is no JSON text: the extraction
    throws inside the same [try], the same [catch] calls
    [controller.error], and a readable stream is errored and delivers
    nothing more; the event is not skipped.  A first choice that is an
    object without [delta], or whose [delta] has no [content], is
    tolerated: the stream stays open and an empty chunk is enqueued. *)
Theorem missing_first_choice_errors_stream :
  (forall c data json,
     JSON_parse data = Some json ->
     no_first_choice json ->
     streamParser (ParsedEvent data) c = Some (error c) /\
     forall malformed,
       malformed <> str "[DONE]" -> JSON_parse malformed = None ->
       streamParser (ParsedEvent malformed) c = streamParser (ParsedEvent data) c)
  /\
  (forall s data json,
     feeding s = true ->
     state (controller_of s) = Readable ->
     JSON_parse data = Some json ->
     no_first_choice json ->
     let s' := step s (Feed (ParsedEvent data)) in
     state (controller_of s') = Errored /\
     queue (controller_of s') = [] /\
     received s' = received s /\
     forall actions,
       state (controller_of (run s' actions)) = Errored /\
       received (run s' actions) = received s)
  /\
  (forall accepted s data json choice,
     open_with accepted s ->
     JSON_parse data = Some json ->
     first_choice json = Some (VObj choice) ->
     (lookup (str "delta") choice = VUndefined \/
      exists delta, lookup (str "delta") choice = VObj delta /\
                    lookup (str "content") delta = VUndefined) ->
     open_with (accepted ++ [[]]) (step s (Feed (ParsedEvent data)))).
Proof.
  assert (Hthrows : forall data json,
    JSON_parse data = Some json -> no_first_choice json ->
    encoded_delta data = None).
  { intros data json Hp Hn. unfold encoded_delta, delta_content. rewrite Hp.
    unfold no_first_choice, first_choice in Hn.
    destruct (get json (str "choices")) as [choices|]; [|reflexivity].
    destruct Hn as [Hn|Hn]; rewrite Hn; reflexivity. }
  split; [|split].
  - intros c data json Hp Hn.
    assert (Hd : streamParser (ParsedEvent data) c = Some (error c)).
    { rewrite streamParser_payload, (parsed_is_not_DONE _ _ Hp), (Hthrows _ _ Hp Hn).
      reflexivity. }
    split; [exact Hd|]. intros malformed Hm Hpm. rewrite Hd.
    rewrite streamParser_payload, (string_eqb_false _ _ Hm).
    now rewrite (malformed_has_no_delta _ Hpm).
  - intros s data json Hf Hs Hp Hn.
    exact (proj2 (feed_throwing s data Hf Hs (parsed_is_not_DONE _ _ Hp)
                    (Hthrows _ _ Hp Hn))).
  - intros accepted s data json choice Ho Hp Hc Hdelta.
    assert (Ht : delta_content data = Some VUndefined).
    { unfold delta_content. rewrite Hp.
      unfold first_choice in Hc.
      destruct (get json (str "choices")) as [choices|]; [|discriminate].
      rewrite Hc. simpl.
      destruct Hdelta as [-> | (delta & -> & Hcont)]; [reflexivity|].
      unfold get_opt; simpl. now rewrite Hcont. }
    exact (feed_delta accepted s data VUndefined [] Ho (parsed_is_not_DONE _ _ Hp)
             Ht eq_refl).
Qed.

(** The payloads {} and {"choices":[]} error the fresh stream; the payload
    {"choices":[{}]} leaves it open with an empty chunk. *)
Lemma missing_first_choice_witness :
  state (controller_of (step new_stream (Feed (ParsedEvent (str "{}")))))
  = Errored /\
  state (controller_of
           (step new_stream (Feed (ParsedEvent (json_text "{'choices':[]}")))))
  = Errored /\
  open_with [[]]
    (step new_stream (Feed (ParsedEvent (json_text "{'choices':[{}]}")))).
Proof.
  destruct missing_first_choice_errors_stream as (_ & Habort & Hkeep).
  split; [|split].
  - refine (proj1 (Habort new_stream (str "{}") (VObj []) eq_refl eq_refl _ _)).
    + vm_compute. reflexivity.
    + left. reflexivity.
  - refine (proj1 (Habort new_stream (json_text "{'choices':[]}")
                     (VObj [(str "choices", VArr [])]) eq_refl eq_refl _ _)).
    + vm_compute. reflexivity.
    + right. reflexivity.
  - refine (Hkeep [] new_stream (json_text "{'choices':[{}]}")
              (VObj [(str "choices", VArr [VObj []])]) [] _ _ _ _).
    + repeat split.
    + vm_compute. reflexivity.
    + reflexivity.
    + left. reflexivity.
Defined.

End Transcoder.

(* ================================================================== *)
(** * Properties of the billing lookup and of its table *)
(* ================================================================== *)

Module Billings.

Import JS Route Spec Examples.

(** Dividing by a zero never gives a finite number. *)
Lemma div_by_zero (x : number) (s : bool) :
  is_nan (div x (S754_zero s)) || is_infinite (div x (S754_zero s)) = true.
Proof. destruct x; reflexivity. Qed.

Lemma div_by_zero_not_zero (x : number) (s : bool) :
  eqb (div x (S754_zero s)) zero = false.
Proof. destruct x as [[]|[]| |[] m e], s; reflexivity. Qed.

Lemma is_number_zero_inv (v : value) :
  is_number_zero v = true -> exists s, v = VNum (S754_zero s).
Proof.
  destruct v as [| | |n| | |]; try discriminate.
  destruct n; try discriminate. intros _. now exists s.
Qed.

(** What the [try] block returns when nothing throws. *)
Lemma fetchBilling_try_inv (w : World) (k : jsstring) (b : Billing) :
  fetchBilling_try w k = Some b ->
  exists subscriptionData usageData total_usage used granted,
    fetch_json w subscription k = Some subscriptionData /\
    fetch_json w usage k = Some usageData /\
    get usageData (str "total_usage") = Some total_usage /\
    ToNumber total_usage = Some used /\
    ToNumber (get_opt subscriptionData (str "hard_limit_usd")) = Some granted /\
    b = {| billing_key := k;
           rate := div (sub granted (div used (of_Z 100))) granted;
           totalGranted := get_opt subscriptionData (str "hard_limit_usd");
           totalUsed := div used (of_Z 100);
           totalAvailable := sub granted (div used (of_Z 100)) |}.
Proof.
  unfold fetchBilling_try.
  destruct (fetch_json w subscription k) as [sd|] eqn:Hs; [|discriminate].
  destruct (get sd (str "error")) as [err|]; [|discriminate].
  destruct (truthy (get_opt err (str "message"))); [discriminate|].
  destruct (fetch_json w usage k) as [ud|] eqn:Hu; [|discriminate].
  destruct (get ud (str "total_usage")) as [tu|] eqn:Ht; [|discriminate].
  destruct (ToNumber tu) as [used|] eqn:Hused; [|discriminate].
  destruct (ToNumber (get_opt sd (str "hard_limit_usd"))) as [granted|] eqn:Hg;
    [|discriminate].
  intros H; injection H as <-. exists sd, ud, tu, used, granted. auto 10.
Qed.

(** [fetchBilling] returns a record for every key, whatever the network
    does: the lookup never raises. *)
Lemma fetchBilling_key (w : World) (k : jsstring) :
  billing_key (fetchBilling w k) = k.
Proof.
  unfold fetchBilling.
  destruct (fetchBilling_try w k) as [b|] eqn:E; [|reflexivity].
  destruct (fetchBilling_try_inv _ _ _ E)
    as (sd & ud & tu & used & granted & _ & _ & _ & _ & _ & ->).
  reflexivity.
Qed.

(** An aggregation over n keys yields n records, in the order of the keys. *)
Lemma billings_one_per_key (w : World) (keys : list jsstring) :
  map billing_key (map (fetchBilling w) keys) = keys.
Proof.
  induction keys as [|k keys IH]; simpl; [reflexivity|].
  now rewrite fetchBilling_key, IH.
Qed.

(** A network error on either call, a body that is no JSON text, and an
    error payload of the subscription endpoint give the unusable record. *)
Lemma fetchBilling_subscription_fails (w : World) (k : jsstring) :
  fetch_json w subscription k = None -> fetchBilling w k = unusable k.
Proof. unfold fetchBilling, fetchBilling_try. now intros ->. Qed.

Lemma fetchBilling_usage_fails (w : World) (k : jsstring) :
  fetch_json w usage k = None -> fetchBilling w k = unusable k.
Proof.
  unfold fetchBilling, fetchBilling_try. intros ->.
  destruct (fetch_json w subscription k) as [sd|]; [|reflexivity].
  destruct (get sd (str "error")) as [err|]; [|reflexivity].
  now destruct (truthy (get_opt err (str "message"))).
Qed.

Lemma fetchBilling_subscription_error_payload
  (w : World) (k : jsstring) (sd err : value) :
  fetch_json w subscription k = Some sd ->
  get sd (str "error") = Some err ->
  truthy (get_opt err (str "message")) = true ->
  fetchBilling w k = unusable k.
Proof.
  unfold fetchBilling, fetchBilling_try. now intros -> -> ->.
Qed.

(** X17. Every failure that the lookup notices is absorbed into the unusable
    record: a network error or a body that is no JSON text on either call,
    and an error payload of the subscription endpoint. *)
Theorem fetchBilling_failure_is_absorbed (w : World) (k : jsstring) :
  fetch_json w subscription k = None \/
  fetch_json w usage k = None \/
  (exists subscriptionData err,
     fetch_json w subscription k = Some subscriptionData /\
     get subscriptionData (str "error") = Some err /\
     truthy (get_opt err (str "message")) = true) ->
  fetchBilling w k = unusable k.
Proof.
  intros [H | [H | (sd & err & Hs & He & Ht)]].
  - now apply fetchBilling_subscription_fails.
  - now apply fetchBilling_usage_fails.
  - now apply (fetchBilling_subscription_error_payload w k sd err).
Qed.

(** The key sk-a, whose calls fail in the example world. *)
Lemma fetchBilling_failure_witness :
  fetchBilling w0 (str "sk-a") = unusable (str "sk-a").
Proof.
  apply (fetchBilling_failure_is_absorbed w0 (str "sk-a")).
  left. reflexivity.
Defined.

(** C2, the code at the failing input: the subscription endpoint answers
    with a limit of 120 and the usage endpoint with an error payload.  The
    lookup does not throw; its record keeps the limit and has NaN for what
    was used, for what is available and for the rate.  It is not the
    all-zero record. *)
Theorem fetchBilling_usage_error_payload_not_unusable :
  fetchBilling (world fetch_usage_error (@sort_v8)) (str "sk-b")
  = {| billing_key := str "sk-b";
       rate := NaN;
       totalGranted := VNum (of_Z 120);
       totalUsed := NaN;
       totalAvailable := NaN |}
  /\ fetchBilling (world fetch_usage_error (@sort_v8)) (str "sk-b")
     <> unusable (str "sk-b").
Proof. split; [vm_compute; reflexivity | vm_compute; discriminate]. Qed.

(** C3, the claim as stated fails: both calls succeed, nothing is granted
    and nothing is used; the rate of the record is NaN, not 0. *)
Lemma fetchBilling_zero_grant_rate_is_NaN :
  fetchBilling_try (world fetch_zero_grant (@sort_v8)) (str "sk-z")
  = Some {| billing_key := str "sk-z";
            rate := NaN;
            totalGranted := VNum zero;
            totalUsed := zero;
            totalAvailable := zero |}.
Proof. vm_compute. reflexivity. Qed.

(** C3, amended. In every record of a lookup whose calls succeed, the rate
    is the quotient [totalAvailable / totalGranted], with
    [totalAvailable = totalGranted - totalUsed], whatever [totalGranted]
    is (as a number: the arithmetic of the lookup has converted it).  With
    [totalGranted === 0] the rate is therefore NaN or an infinity, never
    0; the table shows such a record as unavailable and does not read its
    rate. *)
Theorem fetchBilling_rate_is_quotient (w : World) (k : jsstring) (b : Billing) :
  fetchBilling_try w k = Some b ->
  fetchBilling w k = b /\
  (exists granted,
     ToNumber (totalGranted b) = Some granted /\
     totalAvailable b = sub granted (totalUsed b) /\
     rate b = div (totalAvailable b) granted) /\
  (is_unusable b = true ->
   is_nan (rate b) || is_infinite (rate b) = true /\
   eqb (rate b) zero = false /\
   row b = RowUnavailable (slice0 8 k)).
Proof.
  intros E. split; [unfold fetchBilling; now rewrite E|].
  destruct (fetchBilling_try_inv _ _ _ E)
    as (sd & ud & tu & used & granted & _ & _ & _ & _ & Hg & ->).
  cbn [totalGranted totalAvailable totalUsed rate billing_key].
  split; [exists granted; auto|].
  unfold is_unusable, row; cbn [totalGranted billing_key]. intros Hz. rewrite Hz.
  destruct (is_number_zero_inv _ Hz) as [s Hs]. rewrite Hs in Hg.
  injection Hg as <-.
  split; [apply div_by_zero|]. split; [apply div_by_zero_not_zero|reflexivity].
Qed.

(** The lookup of the key sk-b that is granted 10 and has used 5. *)
Lemma fetchBilling_rate_witness :
  let b := {| billing_key := str "sk-b";
              rate := div (of_Z 5) (of_Z 10);
              totalGranted := VNum (of_Z 10);
              totalUsed := of_Z 5;
              totalAvailable := of_Z 5 |} in
  fetchBilling w0 (str "sk-b") = b /\
  (exists granted,
     ToNumber (totalGranted b) = Some granted /\
     totalAvailable b = sub granted (totalUsed b) /\
     rate b = div (totalAvailable b) granted) /\
  (is_unusable b = true ->
   is_nan (rate b) || is_infinite (rate b) = true /\
   eqb (rate b) zero = false /\
   row b = RowUnavailable (slice0 8 (str "sk-b"))).
Proof.
  apply (fetchBilling_rate_is_quotient w0 (str "sk-b")).
  vm_compute. reflexivity.
Defined.

(** X18. The comparison function contradicts itself on a usable record with a
    positive rate and a record of the [catch] block: it puts each of the
    two before the other.  No sort is bound to an order by it. *)
Lemma compareBillings_inconsistent (u z : Billing) :
  is_unusable u = false ->
  ltb zero (rate u) = true ->
  is_unusable z = true ->
  rate z = zero ->
  negative (SortCompare compareBillings u z) = true /\
  negative (SortCompare compareBillings z u) = true.
Proof.
  unfold is_unusable, SortCompare, compareBillings. intros -> Hr -> ->.
  split; [|reflexivity].
  destruct (rate u) as [s|s| |s m e]; try discriminate;
    destruct s; try discriminate; reflexivity.
Qed.

(** The record of sk-b (rate 0.5) against the record of a failed lookup. *)
Lemma compareBillings_inconsistent_witness :
  let b := {| billing_key := str "sk-b";
              rate := div (of_Z 5) (of_Z 10);
              totalGranted := VNum (of_Z 10);
              totalUsed := of_Z 5;
              totalAvailable := of_Z 5 |} in
  negative (SortCompare compareBillings b (unusable (str "sk-a"))) = true /\
  negative (SortCompare compareBillings (unusable (str "sk-a")) b) = true.
Proof.
  cbv zeta. apply compareBillings_inconsistent; reflexivity.
Defined.

(** C1, the code at the failing input: the keys sk-a, sk-b, sk-c, of which
    only sk-b can be looked up (granted 10, used 5, rate 0.5).  The list
    handed to the table is [unusable a; b; unusable c].  V8's sort returns
    [unusable c; b; unusable a], the insertion sort leaves the list as it
    is: under both, the usable record b stands before an unusable one, in
    the sorted list and in the table that [post] answers with. *)
Theorem genBillingsTable_usable_before_unusable :
  let b := {| billing_key := str "sk-b";
              rate := div (of_Z 5) (of_Z 10);
              totalGranted := VNum (of_Z 10);
              totalUsed := of_Z 5;
              totalAvailable := of_Z 5 |} in
  let a := unusable (str "sk-a") in
  let c := unusable (str "sk-c") in
  let billings := map (fetchBilling w0) [str "sk-a"; str "sk-b"; str "sk-c"] in
  let request := ask (str "Check the balance") (Some (str "sk-a,sk-b,sk-c")) in
  billings = [a; b; c] /\
  sorted_billings (@sort_v8) billings = [c; b; a] /\
  sorted_billings (@sort_insertion) billings = [a; b; c] /\
  unusable_first (sorted_billings (@sort_v8) billings) = false /\
  unusable_first (sorted_billings (@sort_insertion) billings) = false /\
  body (fst (post cfg0 (world fetch_only_b (@sort_v8)) request))
  = BodyTable [row c; row b; row a] /\
  body (fst (post cfg0 (world fetch_only_b (@sort_insertion)) request))
  = BodyTable [row a; row b; row c] /\
  row a = RowUnavailable (str "sk-a") /\
  row c = RowUnavailable (str "sk-c") /\
  row b = RowBalance (str "sk-b") (of_Z 5) (div (of_Z 5) (of_Z 10)) (of_Z 5)
                     (VNum (of_Z 10)).
Proof. cbv zeta. repeat split; vm_compute; reflexivity. Qed.

(** The same slip disorders the usable records among themselves.  With a
    record of the [catch] block between a record of rate 0.9 and one of
    rate 0.3, V8's sort turns [0.9; unusable; 0.3] into [0.3; unusable;
    0.9], and the insertion sort leaves [0.3; unusable; 0.9] as it is:
    the rates of the usable records increase along the table. *)
Lemma sorted_billings_rates_increase :
  let u (k : jsstring) (available used : Z) :=
    {| billing_key := k;
       rate := div (of_Z available) (of_Z 10);
       totalGranted := VNum (of_Z 10);
       totalUsed := of_Z used;
       totalAvailable := of_Z available |} in
  let high := u (str "sk-h") 9 1 in
  let low := u (str "sk-l") 3 7 in
  let z := unusable (str "sk-z") in
  sorted_billings (@sort_v8) [high; z; low] = [low; z; high] /\
  sorted_billings (@sort_insertion) [low; z; high] = [low; z; high] /\
  rates_non_increasing [low; z; high] = false.
Proof. cbv zeta. repeat split; vm_compute; reflexivity. Qed.

End Billings.

(* ================================================================== *)
(** * Properties of the request pipeline *)
(* ================================================================== *)

Module Pipeline.

Import JS Route Spec Examples.

(** ** Numbers and tables *)

Lemma SFcompare_antisym (x y : number) :
  SFcompare y x = option_map CompOpp (SFcompare x y).
Proof.
  destruct x as [sx|sx| |sx mx ex], y as [sy|sy| |sy my ey]; simpl;
    try reflexivity;
    try (destruct sx; reflexivity);
    try (destruct sy; reflexivity);
    try (destruct sx, sy; reflexivity).
  pose proof (Pos.compare_cont_antisym my mx Eq) as H; simpl in H.
  destruct sx, sy; simpl; try reflexivity;
    rewrite (Z.compare_antisym ex ey); destruct (ex ?= ey); simpl;
    try reflexivity;
    rewrite <- H; now rewrite ?CompOpp_involutive.
Qed.

(** [x <= y] rules out [y < x]. *)
Lemma leb_not_gt (x y : number) : leb x y = true -> ltb y x = false.
Proof.
  unfold leb, ltb, SFleb, SFltb. rewrite (SFcompare_antisym x y).
  destruct (SFcompare x y) as [[]|]; simpl; congruence.
Qed.

Lemma digits2_size (p : positive) : digits2_pos p = Pos.size p.
Proof. induction p; simpl; congruence. Qed.

Lemma digits2_iter_xO (k p : positive) :
  digits2_pos (Pos.iter xO p k) = (digits2_pos p + k)%positive.
Proof.
  induction k as [|k IH] using Pos.peano_ind.
  - simpl. lia.
  - rewrite Pos.iter_succ. simpl. rewrite IH. lia.
Qed.

Lemma iter_xO_mul (k p : positive) :
  Pos.iter xO p k = (p * 2 ^ k)%positive.
Proof.
  induction k as [|k IH] using Pos.peano_ind.
  - simpl. lia.
  - rewrite Pos.iter_succ, IH, Pos.pow_succ_r. lia.
Qed.

Lemma shr_fexp_exact (m : positive) (e : Z) :
  Z.pos (digits2_pos m) = 53 -> -1074 <= e ->
  shr_fexp 53 1024 (Z.pos m) e loc_Exact
  = ({| shr_m := Z.pos m; shr_r := false; shr_s := false |}, e).
Proof.
  intros Hd He. unfold shr_fexp, fexp, emin. cbn [Zdigits2]. rewrite Hd.
  replace (Z.max (53 + e - 53) (3 - 1024 - 53) - e) with 0 by lia.
  reflexivity.
Qed.

Lemma binary_round_aux_exact (m : positive) (e : Z) :
  Z.pos (digits2_pos m) = 53 -> -1074 <= e <= 971 ->
  binary_round_aux 53 1024 false (Z.pos m) e loc_Exact = S754_finite false m e.
Proof.
  intros Hd He.
  unfold binary_round_aux. rewrite shr_fexp_exact by lia.
  cbn [shr_m loc_of_shr_record round_nearest_even].
  rewrite shr_fexp_exact by lia. cbn [shr_m].
  destruct (e <=? 1024 - 53) eqn:E; [reflexivity|]. apply Z.leb_gt in E. lia.
Qed.

(** The number of a positive integer below 2^53: the integer shifted to
    53 bits, exactly. *)
Lemma of_Z_pos (p : positive) :
  Z.pos (digits2_pos p) <= 53 ->
  exists m, of_Z (Z.pos p) = S754_finite false m (Z.pos (digits2_pos p) - 53) /\
            Z.pos (digits2_pos m) = 53 /\
            Z.pos m = Z.pos p * 2 ^ (53 - Z.pos (digits2_pos p)).
Proof.
  intros Hd. unfold of_Z, prec, emax, binary_normalize, binary_round, shl_align, fexp, emin.
  replace (Z.max (Z.pos (digits2_pos p) + 0 - 53) (3 - 1024 - 53))
    with (Z.pos (digits2_pos p) - 53) by lia.
  destruct (Z.pos (digits2_pos p) - 53 - 0) as [|k|k] eqn:Ek; try lia.
  - exists p. replace (Z.pos (digits2_pos p) - 53) with 0 by lia.
    rewrite binary_round_aux_exact; try lia.
    replace (53 - Z.pos (digits2_pos p)) with 0 by lia. split; [reflexivity|]. lia.
  - exists (Pos.iter xO p k).
    rewrite binary_round_aux_exact.
    + split; [reflexivity|]. split.
      * rewrite digits2_iter_xO. lia.
      * rewrite iter_xO_mul. rewrite Pos2Z.inj_mul, Pos2Z.inj_pow.
        replace (53 - Z.pos (digits2_pos p)) with (Z.pos k) by lia. reflexivity.
    + rewrite digits2_iter_xO. lia.
    + lia.
Qed.

Lemma size_lt (p q : positive) :
  (Pos.size p < Pos.size q)%positive -> (p < q)%positive.
Proof.
  intros H.
  pose proof (Pos.size_gt p) as Hp. pose proof (Pos.size_le q) as Hq.
  change (Z.pos p < Z.pos (2 ^ Pos.size p)) in Hp.
  change (Z.pos (2 ^ Pos.size q) <= Z.pos q~0) in Hq.
  rewrite Pos2Z.inj_pow in Hp, Hq. rewrite (Pos2Z.inj_xO q) in Hq.
  assert (H1 : 2 ^ Z.pos (Pos.size p) <= 2 ^ (Z.pos (Pos.size q) - 1))
    by (apply Z.pow_le_mono_r; lia).
  assert (H2 : 2 ^ Z.pos (Pos.size q) = 2 * 2 ^ (Z.pos (Pos.size q) - 1)).
  { replace (Z.pos (Pos.size q)) with (Z.succ (Z.pos (Pos.size q) - 1)) at 1 by lia.
    apply Z.pow_succ_r. lia. }
  change (Z.pos p < Z.pos q). lia.
Qed.

Lemma mul_compare_r (a b c : Z) : 0 < c -> (a * c ?= b * c) = (a ?= b).
Proof.
  intros Hc. destruct (Z.compare_spec a b) as [->|H|H].
  - apply Z.compare_refl.
  - apply Z.compare_lt_iff. nia.
  - apply Z.compare_gt_iff. nia.
Qed.

Lemma of_Z_compare_pos (p q : positive) :
  Z.pos (digits2_pos p) <= 53 -> Z.pos (digits2_pos q) <= 53 ->
  SFcompare (of_Z (Z.pos p)) (of_Z (Z.pos q)) = Some (Z.pos p ?= Z.pos q).
Proof.
  intros Hp Hq.
  destruct (of_Z_pos p Hp) as (mp & -> & Hdp & Hmp).
  destruct (of_Z_pos q Hq) as (mq & -> & Hdq & Hmq).
  unfold SFcompare. f_equal.
  change (Pos.compare_cont Eq mp mq) with (Z.pos mp ?= Z.pos mq).
  rewrite (digits2_size p), (digits2_size q), (digits2_size mp),
    (digits2_size mq) in *.
  destruct (Z.compare_spec (Z.pos (Pos.size p) - 53) (Z.pos (Pos.size q) - 53))
    as [E|E|E].
  - assert (Es : Pos.size p = Pos.size q) by lia.
    rewrite Hmp, Hmq, Es. apply mul_compare_r.
    apply Z.pow_pos_nonneg; lia.
  - symmetry. apply Z.compare_lt_iff.
    change (p < q)%positive. apply size_lt. lia.
  - symmetry. apply Z.compare_gt_iff.
    change (q < p)%positive. apply size_lt. lia.
Qed.

(** On the integers from 0 to 2^53 - 1, the order of the numbers is the
    order of the integers. *)
Lemma of_Z_ltb (a b : Z) :
  0 <= a < 2 ^ 53 -> 0 <= b < 2 ^ 53 ->
  ltb (of_Z a) (of_Z b) = (a <? b).
Proof.
  assert (Hsize : forall p, Z.pos p < 2 ^ 53 -> Z.pos (digits2_pos p) <= 53).
  { intros p Hp. rewrite digits2_size.
    pose proof (Pos.size_le p) as Hs.
    change (Z.pos (2 ^ Pos.size p) <= Z.pos p~0) in Hs.
    rewrite Pos2Z.inj_pow, (Pos2Z.inj_xO p) in Hs.
    destruct (Z_le_gt_dec (Z.pos (Pos.size p)) 53) as [|Hgt]; [assumption|].
    assert (2 ^ 54 <= 2 ^ Z.pos (Pos.size p)) by (apply Z.pow_le_mono_r; lia).
    change (2 ^ 54) with (2 * 2 ^ 53) in *. lia. }
  intros Ha Hb. unfold ltb, SFltb, Z.ltb.
  destruct a as [|p|p], b as [|q|q]; try lia.
  - reflexivity.
  - destruct (of_Z_pos q) as (m & -> & _); [apply Hsize; lia|reflexivity].
  - destruct (of_Z_pos p) as (m & -> & _); [apply Hsize; lia|reflexivity].
  - rewrite of_Z_compare_pos by (apply Hsize; lia). reflexivity.
Qed.

Lemma eqb_leb (x y : number) : eqb x y = true -> leb x y = true.
Proof.
  unfold eqb, leb, SFeqb, SFleb. destruct (SFcompare x y) as [[]|]; congruence.
Qed.

Lemma string_eqb_eq (a b : jsstring) : string_eqb a b = true <-> a = b.
Proof. unfold string_eqb. destruct (list_eq_dec N.eq_dec a b); split; congruence. Qed.

Lemma string_eqb_refl (a : jsstring) : string_eqb a a = true.
Proof. now apply string_eqb_eq. Qed.

Lemma lookup_set (m k : jsstring) (v : value) (o : object) :
  lookup m (set k v o) = if string_eqb m k then v else lookup m o.
Proof.
  induction o as [|[k' v'] o IH]; simpl.
  - reflexivity.
  - destruct (string_eqb k k') eqn:Ek; simpl.
    + apply string_eqb_eq in Ek; subst k'. now destruct (string_eqb m k).
    + rewrite IH. destruct (string_eqb m k') eqn:Em; [|reflexivity].
      apply string_eqb_eq in Em; subst k'.
      destruct (string_eqb m k) eqn:Emk; [|reflexivity].
      apply string_eqb_eq in Emk; subst k. rewrite string_eqb_refl in Ek.
      discriminate.
Qed.

(** The table that a global override builds gives the override to every
    model of the default table. *)
Lemma lookup_global (m : jsstring) (v : value) (l acc : object) :
  lookup m (fold_left (fun acc kv => set (fst kv) v acc) l acc)
  = if has_key m l then v else lookup m acc.
Proof.
  revert acc. induction l as [|[k x] l IH]; intros acc; simpl.
  - reflexivity.
  - rewrite IH, lookup_set. destruct (string_eqb m k); simpl.
    + now destruct (has_key m l).
    + reflexivity.
Qed.

Lemma last_value_from (m : jsstring) (o : object) (r : option value) :
  fold_left (fun r kv => if string_eqb m (fst kv) then Some (snd kv) else r) o r
  = match last_value m o with Some v => Some v | None => r end.
Proof.
  unfold last_value. revert r. induction o as [|[k v] o IH]; intros r; simpl.
  - reflexivity.
  - rewrite IH. rewrite (IH (if string_eqb m k then Some v else None)).
    destruct (fold_left _ o None); [reflexivity|].
    now destruct (string_eqb m k).
Qed.

(** A per-model override replaces the ceilings of the models it names. *)
Lemma lookup_spread (m : jsstring) (a o : object) :
  lookup m (spread a o)
  = match last_value m o with Some v => v | None => lookup m a end.
Proof.
  unfold spread. revert a. induction o as [|[k v] o IH]; intros a; simpl.
  - reflexivity.
  - rewrite IH. unfold last_value at 2. simpl. rewrite last_value_from.
    destruct (last_value m o); [reflexivity|].
    rewrite lookup_set. now destruct (string_eqb m k).
Qed.

(** ** The calls of [post] *)

Lemma count_tokens_spec (w : World) (msgs : list ChatMessage) (acc : number)
  (log : list Call) :
  count_tokens w msgs acc log
  = (Returned (fold_left (fun acc cur => add acc (countTokens w (content cur)))
                         msgs acc),
     log ++ counted msgs).
Proof.
  revert acc log. induction msgs as [|cur msgs IH]; intros acc log; simpl.
  - unfold ret. now rewrite app_nil_r.
  - unfold bind, call. rewrite IH. now rewrite <- app_assoc.
Qed.

(** What [post] does on the completion path: it selects the key, then
    counts the tokens of every message and checks the budget, then calls
    the upstream. *)
Lemma post_completion (cfg : Config) (w : World) (b : RequestBody)
  (msgs : list ChatMessage) :
  completion_path cfg b msgs ->
  post cfg w b
  = let keys := splitKeys (key_of cfg b) in
    match randomKey (draw w) keys with
    | None | Some [] =>
        (Response_with_status (BodyError error_no_key) 400, [call_randomKey keys])
    | Some apiKey =>
        match gt_value (estimate w msgs) (limit cfg b (model_of cfg b)) with
        | None =>
            (Response_with_status
               (BodyEngineError TypeError_to_primitive) 400,
             call_randomKey keys :: counted msgs)
        | Some true =>
            (Response_with_status
               (BodyError (if (1 <? length msgs)%nat
                           then error_too_long_conversation else error_too_long))
               400,
             call_randomKey keys :: counted msgs)
        | Some false =>
            let request := completion_request cfg b apiKey msgs in
            (reply w (rawRes_of w request),
             call_randomKey keys :: counted msgs ++ [call_fetchWithTimeout request])
        end
    end.
Proof.
  intros (Hp & Hm & first & rest & -> & Hc & Hs).
  unfold post, post_try. rewrite Hp, Hm, Hc, Hs.
  unfold bind, call; simpl app.
  destruct (randomKey (draw w) (splitKeys (key_of cfg b))) as [[|c apiKey]|];
    try reflexivity.
  rewrite count_tokens_spec. fold (estimate w (first :: rest)).
  cbv zeta.
  destruct (gt_value (estimate w (first :: rest)) (limit cfg b (model_of cfg b)))
    as [[|]|].
  - destruct (1 <? length (first :: rest))%nat; reflexivity.
  - unfold respond, reply, ret, throw. cbn [app counted map].
    destruct (answer w _); reflexivity.
  - reflexivity.
Qed.

(** Off the completion path [post] makes none of the calls. *)
Lemma post_elsewhere (cfg : Config) (w : World) (b : RequestBody) :
  (exists msgs, completion_path cfg b msgs) \/ snd (post cfg w b) = [].
Proof.
  unfold completion_path, post, post_try.
  destruct (password_rejected cfg b) eqn:Hp; [now right|].
  destruct (messages b) as [[|first rest]|] eqn:Hm; [now right| |now right].
  destruct (startsWith (last_content first (first :: rest)) (str "Check the balance"))
    eqn:Hc.
  - right. now destruct (negb (string_eqb (key_of cfg b) (localKey cfg))).
  - destruct (startsWith (last_content first (first :: rest)) (str "sk-")) eqn:Hs.
    + now right.
    + left. exists (first :: rest). repeat split.
      exists first, rest. auto.
Qed.

Lemma not_counted (request : CompletionRequest) (msgs : list ChatMessage) :
  ~ In (call_fetchWithTimeout request) (counted msgs).
Proof.
  unfold counted. intros H. apply in_map_iff in H.
  destruct H as (cur & Hc & _). discriminate.
Qed.

(** Whenever [post] calls the upstream, it has selected a key and the
    budget check has passed; the calls before it are the key selection and
    then the token counts, and the answer is made of [rawRes]. *)
Lemma post_upstream_call (cfg : Config) (w : World) (b : RequestBody)
  (request : CompletionRequest) :
  In (call_fetchWithTimeout request) (snd (post cfg w b)) ->
  exists msgs apiKey,
    reaches_check cfg w b msgs apiKey /\
    gt_value (estimate w msgs) (limit cfg b (model_of cfg b)) = Some false /\
    request = completion_request cfg b apiKey msgs /\
    post cfg w b
    = (reply w (rawRes_of w request),
       call_randomKey (splitKeys (key_of cfg b))
         :: counted msgs ++ [call_fetchWithTimeout request]).
Proof.
  intros Hin.
  destruct (post_elsewhere cfg w b) as [[msgs Hpath] | Hnone];
    [|rewrite Hnone in Hin; contradiction].
  rewrite (post_completion cfg w b msgs Hpath) in *. cbv zeta in *.
  destruct (randomKey (draw w) (splitKeys (key_of cfg b))) as [[|c apiKey]|] eqn:Hk.
  - simpl in Hin. destruct Hin as [Hin|[]]. discriminate.
  - destruct (gt_value (estimate w msgs) (limit cfg b (model_of cfg b)))
      as [[|]|] eqn:Hgt.
    + simpl in Hin. destruct Hin as [Hin|Hin]; [discriminate|].
      now apply not_counted in Hin.
    + simpl in Hin. destruct Hin as [Hin|Hin]; [discriminate|].
      apply in_app_or in Hin. destruct Hin as [Hin|[Hin|[]]];
        [now apply not_counted in Hin|].
      injection Hin as <-.
      exists msgs, (c :: apiKey).
      split; [split; [exact Hpath | split; [exact Hk | discriminate]]|].
      auto.
    + simpl in Hin. destruct Hin as [Hin|Hin]; [discriminate|].
      now apply not_counted in Hin.
  - simpl in Hin. destruct Hin as [Hin|[]]. discriminate.
Qed.

(** A wrong password, and a request without messages, are answered with
    400 and the respective message before any call leaves the route. *)
Theorem rejected_before_any_call (cfg : Config) (w : World) (b : RequestBody) :
  (password_rejected cfg b = true ->
   post cfg w b = (Response_with_status (BodyError error_password) 400, [])) /\
  (password_rejected cfg b = false ->
   messages b = None \/ messages b = Some [] ->
   post cfg w b = (Response_with_status (BodyError error_no_text) 400, [])).
Proof.
  unfold post, post_try. split.
  - now intros ->.
  - intros -> [-> | ->]; reflexivity.
Qed.

(** A configuration with the password "secret": the request without a
    password is refused, and with the password but no message it is
    answered that no text was entered. *)
Lemma rejected_before_any_call_witness :
  let cfg := {| OPENAI_API_KEY := Some (str "sk-builtin");
                PASSWORD := Some (str "secret");
                MAX_INPUT_TOKENS := None;
                TIMEOUT := None;
                defaultMaxInputTokens := defaultMaxInputTokens cfg0;
                defaultModel := str "gpt-3.5-turbo" |} in
  let empty p := {| messages := Some [];
                    key := None;
                    temperature := None;
                    password := p;
                    model := None |} in
  post cfg w0 (empty None)
  = (Response_with_status (BodyError error_password) 400, []) /\
  post cfg w0 (empty (Some (str "secret")))
  = (Response_with_status (BodyError error_no_text) 400, []).
Proof.
  cbv zeta. split.
  - refine (proj1 (rejected_before_any_call _ w0 _) _). reflexivity.
  - refine (proj2 (rejected_before_any_call _ w0 _) _ _).
    + reflexivity.
    + right. reflexivity.
Defined.

(** C4, the claim as stated fails.  On the completion path the key is
    selected first and the tokens are counted after it.  So a request that
    is over the budget and finds no key is answered with the key error,
    not with the length error. *)
Lemma key_selection_precedes_budget_check :
  let hello := ask (str "hello") (Some (str "sk-mine")) in
  let long := ask (repeat 97%N 4000) None in
  snd (post cfg0 w0 hello)
  = [call_randomKey [str "sk-mine"];
     call_countTokens (str "hello");
     call_fetchWithTimeout
       (completion_request cfg0 hello (str "sk-mine") [mkMessage user (str "hello")])]
  /\ gt_value (estimate w0 [mkMessage user (repeat 97%N 4000)])
              (limit cfg_nokey long (model_of cfg_nokey long)) = Some true
  /\ post cfg_nokey w0 long
     = (Response_with_status (BodyError error_no_key) 400, [call_randomKey []]).
Proof. cbv zeta. repeat split; vm_compute; reflexivity. Qed.

(** C4, amended.  Whenever [post] issues the upstream completion request,
    the calls were made in this order: the key selection, then the token
    count of every message - after which the budget check passed - and
    then the upstream request.  In particular no upstream call is issued
    before the budget check, nor when it rejects. *)
Theorem upstream_call_follows_key_selection_and_budget_check
  (cfg : Config) (w : World) (b : RequestBody) (request : CompletionRequest) :
  In (call_fetchWithTimeout request) (snd (post cfg w b)) ->
  exists msgs apiKey,
    reaches_check cfg w b msgs apiKey /\
    gt_value (estimate w msgs) (limit cfg b (model_of cfg b)) = Some false /\
    request = completion_request cfg b apiKey msgs /\
    snd (post cfg w b)
    = call_randomKey (splitKeys (key_of cfg b))
        :: counted msgs ++ [call_fetchWithTimeout request].
Proof.
  intros Hin.
  destruct (post_upstream_call cfg w b request Hin)
    as (msgs & apiKey & Hr & Hgt & Hreq & Hpost).
  exists msgs, apiKey. rewrite Hpost. auto.
Qed.

(** The request "hello" with the key sk-mine. *)
Lemma upstream_call_order_witness :
  let hello := ask (str "hello") (Some (str "sk-mine")) in
  let request :=
    completion_request cfg0 hello (str "sk-mine") [mkMessage user (str "hello")] in
  exists msgs apiKey,
    reaches_check cfg0 w0 hello msgs apiKey /\
    gt_value (estimate w0 msgs) (limit cfg0 hello (model_of cfg0 hello)) = Some false /\
    request = completion_request cfg0 hello apiKey msgs /\
    snd (post cfg0 w0 hello)
    = call_randomKey (splitKeys (key_of cfg0 hello))
        :: counted msgs ++ [call_fetchWithTimeout request].
Proof.
  cbv zeta.
  apply (upstream_call_follows_key_selection_and_budget_check cfg0 w0).
  vm_compute. right. right. left. reflexivity.
Defined.

(** What [post] answers to a rejected call, and to a delivered response. *)
Lemma reply_rejected (w : World) (request : CompletionRequest) (message : jsstring) :
  fetchWithTimeout w request = Rejected message ->
  reply w (rawRes_of w request) = Response_with_status (BodyError message) 500.
Proof. unfold reply, answer, rawRes_of. now intros ->. Qed.

Lemma reply_delivered (w : World) (request : CompletionRequest) (u : Upstream) :
  fetchWithTimeout w request = Delivered u ->
  reply w (rawRes_of w request)
  = if (200 <=? up_status u) && (up_status u <=? 299)
    then Response_of match up_body u with
                     | Some payload => BodyStream (createParser w payload)
                     | None => BodyFailedStream
                     end
    else match Response_new (BodyUpstream (up_body u)) (up_status u)
                            (up_statusText u) with
         | inr r => r
         | inl e => Response_with_status (BodyEngineError e) 400
         end.
Proof.
  unfold reply, answer, rawRes_of, ok. intros ->. cbn [status statusText body].
  destruct ((200 <=? up_status u) && (up_status u <=? 299)); cbn [negb].
  - now destruct (up_body u).
  - reflexivity.
Qed.

(** C7, the claim as stated fails.  An upstream that answers with the
    status 999 is not relayed: [new Response(rawRes.body, { status: 999 })]
    throws a RangeError, and the outer [catch] answers 400 with the message
    of that error in the error envelope. *)
Lemma status_999_is_not_relayed :
  let denied := mkUpstream 999 (str "Request denied") (Some [str "denied"]) in
  let w := Notions.world_up (Delivered denied) [] in
  let hello := ask (str "hello") (Some (str "sk-mine")) in
  post cfg0 w hello
  = (Response_with_status (BodyEngineError RangeError_status) 400,
     [call_randomKey [str "sk-mine"];
      call_countTokens (str "hello");
      call_fetchWithTimeout
        (completion_request cfg0 hello (str "sk-mine") [mkMessage user (str "hello")])])
  /\ fst (post cfg0 w hello)
     <> mkResponse 999 (str "Request denied") (BodyUpstream (Some [str "denied"])).
Proof. cbv zeta. split; [vm_compute; reflexivity | vm_compute; discriminate]. Qed.

(** A reason phrase is a byte string. *)
Lemma reason_phrase_bytes (s : jsstring) :
  is_reason_phrase s = true -> is_byte_string s = true.
Proof.
  unfold is_reason_phrase, is_byte_string. rewrite !forallb_forall.
  intros H c Hc. specialize (H c Hc).
  apply N.leb_le.
  apply orb_true_iff in H. destruct H as [H|H].
  - apply orb_true_iff in H. destruct H as [H|H].
    + apply N.eqb_eq in H. lia.
    + apply andb_true_iff in H. destruct H as [_ H]. apply N.leb_le in H. lia.
  - apply andb_true_iff in H. destruct H as [_ H]. now apply N.leb_le in H.
Qed.

(** C7, amended.  Whenever the upstream answers the completion request
    with a status from 300 to 599, a status text that is a reason phrase
    and, for the status 304, no body - so with every non-success response
    that a [Response] can carry - [post] answers with the status, the
    status text and the body of the upstream, unchanged; the body is not
    a transcoded stream.  A status outside 200..599 (a status is an
    unsigned short, its text a byte string) is not relayed: the
    constructor throws, and [post] answers 400 with the message of the
    RangeError. *)
Theorem non_success_upstream_response_is_relayed
  (cfg : Config) (w : World) (b : RequestBody) (request : CompletionRequest)
  (u : Upstream) :
  In (call_fetchWithTimeout request) (snd (post cfg w b)) ->
  fetchWithTimeout w request = Delivered u ->
  (300 <= up_status u <= 599 ->
   is_reason_phrase (up_statusText u) = true ->
   (up_status u = 304 -> up_body u = None) ->
   fst (post cfg w b)
   = mkResponse (up_status u) (up_statusText u) (BodyUpstream (up_body u))) /\
  (0 <= up_status u < 200 \/ 599 < up_status u < 65536 ->
   is_byte_string (up_statusText u) = true ->
   fst (post cfg w b)
   = Response_with_status (BodyEngineError RangeError_status) 400).
Proof.
  intros Hin Hu.
  destruct (post_upstream_call cfg w b request Hin)
    as (msgs & apiKey & _ & _ & _ & Hpost).
  rewrite Hpost. cbn [fst]. rewrite (reply_delivered w request u Hu).
  unfold Response_new. cbv zeta. split.
  - intros [Hlo Hhi] Htext Hnull.
    rewrite (Z.mod_small (up_status u) 65536) by lia.
    replace ((200 <=? up_status u) && (up_status u <=? 299)) with false
      by (symmetry; apply andb_false_iff; right; apply Z.leb_gt; lia).
    replace ((200 <=? up_status u) && (up_status u <=? 599)) with true
      by (symmetry; apply andb_true_iff; split; apply Z.leb_le; lia).
    rewrite (reason_phrase_bytes _ Htext), Htext. cbn [negb].
    destruct (up_body u) as [payload|] eqn:Hb; cbn [has_body andb]; [|reflexivity].
    replace (null_body_status (up_status u)) with false; [reflexivity|].
    symmetry. unfold null_body_status.
    assert (up_status u <> 304) by (intros H304; specialize (Hnull H304); discriminate).
    repeat (apply orb_false_iff; split); apply Z.eqb_neq; lia.
  - intros Hout Hbytes.
    rewrite (Z.mod_small (up_status u) 65536) by lia.
    replace ((200 <=? up_status u) && (up_status u <=? 299)) with false
      by (symmetry; apply andb_false_iff;
          destruct Hout; [left|right]; apply Z.leb_gt; lia).
    replace ((200 <=? up_status u) && (up_status u <=? 599)) with false
      by (symmetry; apply andb_false_iff;
          destruct Hout; [left|right]; apply Z.leb_gt; lia).
    rewrite Hbytes. reflexivity.
Qed.

(** The upstream that answers 429 Too Many Requests. *)
Lemma non_success_relayed_witness :
  fst (post cfg0 w0 (ask (str "hello") (Some (str "sk-mine"))))
  = mkResponse 429 (str "Too Many Requests")
      (BodyUpstream
         (Some [utf8 (json_text "{'error':{'message':'Rate limit reached'}}")])).
Proof.
  refine (proj1 (non_success_upstream_response_is_relayed cfg0 w0
           (ask (str "hello") (Some (str "sk-mine")))
           (completion_request cfg0 (ask (str "hello") (Some (str "sk-mine")))
              (str "sk-mine") [mkMessage user (str "hello")])
           too_many_requests _ _) _ _ _).
  - vm_compute. right. right. left. reflexivity.
  - reflexivity.
  - simpl. lia.
  - reflexivity.
  - discriminate.
Defined.

(** C5, the claim as stated fails.  With no override the ceiling is the
    same with the credential of the caller as with the built-in one; with
    the global override 100000 the ceiling of the built-in credential is
    the larger one. *)
Lemma supplied_credential_ceiling_not_larger :
  let own := ask (str "hello") (Some (str "sk-mine")) in
  let builtin := ask (str "hello") None in
  limit cfg0 own (str "gpt-4") = VNum (of_Z 6144) /\
  limit cfg0 builtin (str "gpt-4") = VNum (of_Z 6144) /\
  limit cfg_global own (str "gpt-4") = VNum (of_Z 6144) /\
  limit cfg_global builtin (str "gpt-4") = VNum (of_Z 100000) /\
  gt_value (of_Z 100000) (limit cfg_global own (str "gpt-4")) = Some true.
Proof. cbv zeta. repeat split; vm_compute; reflexivity. Qed.

(** C5, amended.  With a credential of the caller (a non-empty key in the
    request) the ceiling is the default ceiling of the model, which no
    override changes.  With the built-in credential it is the ceiling of
    [maxInputTokens]: the default ceiling when MAX_INPUT_TOKENS is not
    set or is neither an integer nor a JSON text; the integer itself, for
    every model of the default table, when MAX_INPUT_TOKENS is an integer;
    and, when it is a JSON mapping, the value that the mapping gives the
    model, or the default ceiling of a model that the mapping does not
    name.  The two ceilings are equal unless an override changes the
    ceiling of the model. *)
Theorem ceiling_by_credential (cfg : Config) (b : RequestBody) (m : jsstring) :
  (nonempty (key b) = true ->
   limit cfg b m = lookup m (defaultMaxInputTokens cfg)) /\
  (nonempty (key b) = false ->
   limit cfg b m = lookup m (maxInputTokens cfg)) /\
  (nonempty (MAX_INPUT_TOKENS cfg) = false ->
   lookup m (maxInputTokens cfg) = lookup m (defaultMaxInputTokens cfg)) /\
  (forall v,
     MAX_INPUT_TOKENS cfg = Some v -> v <> [] ->
     isInteger (StringToNumber v) = true ->
     lookup m (maxInputTokens cfg)
     = if has_key m (defaultMaxInputTokens cfg)
       then VNum (StringToNumber v) else VUndefined) /\
  (forall v mapping,
     MAX_INPUT_TOKENS cfg = Some v ->
     isInteger (StringToNumber v) = false ->
     JSON_parse v = Some (VObj mapping) ->
     lookup m (maxInputTokens cfg)
     = match last_value m mapping with
       | Some ceiling => ceiling
       | None => lookup m (defaultMaxInputTokens cfg)
       end) /\
  (forall v,
     MAX_INPUT_TOKENS cfg = Some v ->
     isInteger (StringToNumber v) = false ->
     JSON_parse v = None ->
     lookup m (maxInputTokens cfg) = lookup m (defaultMaxInputTokens cfg)).
Proof.
  unfold limit, maxInputTokens.
  split; [now intros ->|]. split; [now intros ->|].
  split; [|split; [|split]].
  - destruct (MAX_INPUT_TOKENS cfg) as [[|c v]|]; simpl; try reflexivity.
    discriminate.
  - intros v -> Hv Hi. destruct v as [|c v]; [contradiction|].
    rewrite Hi. now rewrite lookup_global.
  - intros v mapping -> Hi Hp. destruct v as [|c v]; [discriminate|].
    rewrite Hi, Hp. simpl own_properties. apply lookup_spread.
  - intros v -> Hi Hp. destruct v as [|c v]; [reflexivity|].
    now rewrite Hi, Hp.
Qed.

(** The three configurations of the examples, for the model gpt-4: the
    ceiling of a caller with a key is 6144 in each; the built-in ceiling
    is 6144 with no override, 100000 with the global override, and 100
    with the mapping that names gpt-4. *)
Lemma ceiling_by_credential_witness :
  let own := ask (str "hello") (Some (str "sk-mine")) in
  let builtin := ask (str "hello") None in
  limit cfg_global own (str "gpt-4") = VNum (of_Z 6144) /\
  limit cfg0 builtin (str "gpt-4") = VNum (of_Z 6144) /\
  limit cfg_global builtin (str "gpt-4") = VNum (of_Z 100000) /\
  limit cfg_per_model builtin (str "gpt-4") = VNum (of_Z 100) /\
  limit cfg_per_model builtin (str "gpt-3.5-turbo") = VNum (of_Z 3072).
Proof.
  cbv zeta.
  pose proof (ceiling_by_credential cfg_global
                (ask (str "hello") (Some (str "sk-mine"))) (str "gpt-4"))
    as (Hown & _).
  pose proof (ceiling_by_credential cfg0 (ask (str "hello") None) (str "gpt-4"))
    as (_ & H0 & H0' & _).
  pose proof (ceiling_by_credential cfg_global (ask (str "hello") None) (str "gpt-4"))
    as (_ & Hg & _ & Hg' & _).
  pose proof (ceiling_by_credential cfg_per_model (ask (str "hello") None) (str "gpt-4"))
    as (_ & Hm & _ & _ & Hm' & _).
  pose proof (ceiling_by_credential cfg_per_model (ask (str "hello") None)
                (str "gpt-3.5-turbo"))
    as (_ & Hn & _ & _ & Hn' & _).
  split; [rewrite (Hown eq_refl); reflexivity|].
  split; [rewrite (H0 eq_refl), (H0' eq_refl); reflexivity|].
  split.
  { rewrite (Hg eq_refl), (Hg' (str "100000") eq_refl); try reflexivity.
    discriminate. }
  split.
  { rewrite (Hm eq_refl).
    rewrite (Hm' (json_text "{'gpt-4': 100}")
                 [(str "gpt-4", VNum (of_Z 100))] eq_refl);
      try reflexivity. }
  rewrite (Hn eq_refl).
  rewrite (Hn' (json_text "{'gpt-4': 100}")
               [(str "gpt-4", VNum (of_Z 100))] eq_refl);
    reflexivity.
Defined.

(** The two messages of the length error differ. *)
Lemma too_long_messages_differ : error_too_long_conversation <> error_too_long.
Proof. discriminate. Qed.

(** C6. A request that reaches the token-budget check is rejected exactly
    when its estimate - the sum of the token counts of its messages - is
    greater than the ceiling, and is accepted (the upstream is called)
    otherwise, so whenever the estimate is below the ceiling or equal to
    it.  For an integer ceiling [L] and an integer estimate [E] (both
    below 2^53) the request is rejected when [L < E] and accepted when
    [E <= L]: accepted at [L] and at [L - 1], rejected at [L + 1].  The
    rejection is the answer 400 with the length error, whose message for
    a conversation of more than one message differs from the message for
    a single one.  The ceiling is the configured value as a number; a
    configured value that cannot be converted to a number makes the
    comparison throw, and the request is answered 400 with the message of
    that error of the engine, the upstream not being called. *)
Theorem token_budget_check (cfg : Config) (w : World) (b : RequestBody)
  (msgs : list ChatMessage) (apiKey : jsstring) :
  reaches_check cfg w b msgs apiKey ->
  let tokens := estimate w msgs in
  let request := completion_request cfg b apiKey msgs in
  let rejected :=
    fst (post cfg w b)
    = Response_with_status
        (BodyError (if (1 <? length msgs)%nat
                    then error_too_long_conversation else error_too_long)) 400
    /\ ~ In (call_fetchWithTimeout request) (snd (post cfg w b)) in
  let accepted :=
    fst (post cfg w b) = reply w (rawRes_of w request)
    /\ In (call_fetchWithTimeout request) (snd (post cfg w b)) in
  (forall ceiling,
     ToNumber (limit cfg b (model_of cfg b)) = Some ceiling ->
     (ltb ceiling tokens = true -> rejected) /\
     (ltb ceiling tokens = false -> accepted) /\
     (leb tokens ceiling = true -> accepted) /\
     (forall L E : Z,
        0 <= L < 2 ^ 53 -> 0 <= E < 2 ^ 53 ->
        ceiling = of_Z L -> tokens = of_Z E ->
        (L < E -> rejected) /\ (E <= L -> accepted) /\
        (E = L -> accepted) /\ (E = L + 1 -> rejected) /\ (E = L - 1 -> accepted))) /\
  (ToNumber (limit cfg b (model_of cfg b)) = None ->
   fst (post cfg w b)
   = Response_with_status (BodyEngineError TypeError_to_primitive) 400
   /\ ~ In (call_fetchWithTimeout request) (snd (post cfg w b))) /\
  error_too_long_conversation <> error_too_long.
Proof.
  intros (Hpath & Hkey & Hne). cbv zeta.
  rewrite (post_completion cfg w b msgs Hpath). cbv zeta. rewrite Hkey.
  destruct apiKey as [|c apiKey]; [contradiction|].
  unfold gt_value.
  assert (Hnot : ~ In (call_fetchWithTimeout
                         (completion_request cfg b (c :: apiKey) msgs))
                      (call_randomKey (splitKeys (key_of cfg b)) :: counted msgs)).
  { intros [H|H]; [discriminate|]. now apply not_counted in H. }
  split; [|split; [|exact too_long_messages_differ]].
  - intros ceiling Hceil. rewrite Hceil. cbn [option_map].
    destruct (ltb ceiling (estimate w msgs)) eqn:Hlt; cbn [fst snd].
    + assert (Hrej :
        Response_with_status
          (BodyError (if (1 <? length msgs)%nat
                      then error_too_long_conversation else error_too_long)) 400
        = Response_with_status
            (BodyError (if (1 <? length msgs)%nat
                        then error_too_long_conversation else error_too_long)) 400
        /\ ~ In (call_fetchWithTimeout
                   (completion_request cfg b (c :: apiKey) msgs))
                (call_randomKey (splitKeys (key_of cfg b)) :: counted msgs))
        by (split; [reflexivity|exact Hnot]).
      split; [intros _; exact Hrej|]. split; [discriminate|].
      split; [intros H; apply leb_not_gt in H; congruence|].
      intros L E HL HE Hc Ht.
      assert (HLE : L < E).
      { apply Z.ltb_lt. rewrite <- (of_Z_ltb L E HL HE), <- Hc, <- Ht. exact Hlt. }
      split; [intros _; exact Hrej|]. split; [intros; lia|].
      split; [intros; lia|]. split; [intros _; exact Hrej|]. intros; lia.
    + assert (Hacc :
        reply w (rawRes_of w (completion_request cfg b (c :: apiKey) msgs))
        = reply w (rawRes_of w (completion_request cfg b (c :: apiKey) msgs))
        /\ In (call_fetchWithTimeout
                 (completion_request cfg b (c :: apiKey) msgs))
              (call_randomKey (splitKeys (key_of cfg b))
                 :: counted msgs
                    ++ [call_fetchWithTimeout
                          (completion_request cfg b (c :: apiKey) msgs)])).
      { split; [reflexivity|]. right. apply in_or_app. right. now left. }
      split; [discriminate|]. split; [intros _; exact Hacc|].
      split; [intros _; exact Hacc|].
      intros L E HL HE Hc Ht.
      assert (HLE : E <= L).
      { apply Z.ltb_ge. rewrite <- (of_Z_ltb L E HL HE), <- Hc, <- Ht. exact Hlt. }
      split; [intros; lia|]. split; [intros _; exact Hacc|].
      split; [intros _; exact Hacc|]. split; [intros; lia|]. intros _; exact Hacc.
  - intros ->. cbn [option_map fst snd]. split; [reflexivity|exact Hnot].
Qed.

(** With the key sk-mine the ceiling of the default model is 3072 and the
    tokenizer of the example counts code units.  A conversation of 3000
    and 73 code units (3073 tokens) is rejected with the message for
    conversations, a single message of 3073 with the other message;
    single messages of 3072 and of 3071 code units are accepted, and the
    answer 429 of the upstream is relayed. *)
Lemma token_budget_check_witness :
  let reject msgs long :=
    fst (post cfg0 w0 (converse msgs (Some (str "sk-mine"))))
    = Response_with_status (BodyError long) 400 in
  let accept msgs :=
    fst (post cfg0 w0 (converse msgs (Some (str "sk-mine"))))
    = mkResponse 429 (up_statusText too_many_requests)
                 (BodyUpstream (up_body too_many_requests)) in
  reject [mkMessage user (repeat 97%N 3000); mkMessage assistant (repeat 97%N 73)]
         error_too_long_conversation /\
  reject [mkMessage user (repeat 97%N 3073)] error_too_long /\
  accept [mkMessage user (repeat 97%N 3072)] /\
  accept [mkMessage user (repeat 97%N 3071)].
Proof.
  cbv zeta.
  assert (Hreach : forall msgs first rest,
    msgs = first :: rest ->
    startsWith (last_content first msgs) (str "Check the balance") = false ->
    startsWith (last_content first msgs) (str "sk-") = false ->
    reaches_check cfg0 w0 (converse msgs (Some (str "sk-mine"))) msgs (str "sk-mine")).
  { intros msgs first rest Hm Hc Hs. split; [|split; [reflexivity|discriminate]].
    split; [reflexivity|]. split; [reflexivity|]. now exists first, rest. }
  assert (Hceil : ToNumber (limit cfg0 (converse [] (Some (str "sk-mine")))
                             (str "gpt-3.5-turbo")) = Some (of_Z 3072))
    by reflexivity.
  split; [|split; [|split]].
  - refine (proj1 (proj1 (proj1 (token_budget_check cfg0 w0 _ _ _
               (Hreach _ _ _ eq_refl _ _)) (of_Z 3072) Hceil) _));
      vm_compute; reflexivity.
  - refine (proj1 (proj1 (proj1 (token_budget_check cfg0 w0 _ _ _
               (Hreach _ _ _ eq_refl _ _)) (of_Z 3072) Hceil) _));
      vm_compute; reflexivity.
  - refine (proj1 (proj1 (proj2 (proj1 (token_budget_check cfg0 w0 _ _ _
               (Hreach _ _ _ eq_refl _ _)) (of_Z 3072) Hceil)) _));
      vm_compute; reflexivity.
  - refine (proj1 (proj1 (proj2 (proj1 (token_budget_check cfg0 w0 _ _ _
               (Hreach _ _ _ eq_refl _ _)) (of_Z 3072) Hceil)) _));
      vm_compute; reflexivity.
Defined.

End Pipeline.

(* ================================================================== *)
(** * Further properties of the event transcoder *)
(* ================================================================== *)

Module Streams.
Import JS Route Spec Notions Examples Transcoder.

Lemma utf8_ascii (s : jsstring) : ascii_only s -> utf8 s = s.
Proof.
  induction 1 as [|c s Hc _ IH]; [reflexivity|].
  assert (Hh : is_high_surrogate c = false).
  { unfold is_high_surrogate. apply andb_false_intro1. apply N.leb_gt. lia. }
  assert (Hl : is_low_surrogate c = false).
  { unfold is_low_surrogate. apply andb_false_intro1. apply N.leb_gt. lia. }
  cbn [utf8]. rewrite Hh, Hl. unfold utf8_of_code_point.
  apply N.ltb_lt in Hc. rewrite Hc. simpl. now rewrite IH.
Qed.

(** A payload with a delta is a JSON text, so it is not the sentinel. *)
Lemma delta_is_not_DONE (data : jsstring) (text : value) :
  delta_content data = Some text -> string_eqb data (str "[DONE]") = false.
Proof.
  unfold delta_content. destruct (JSON_parse data) as [json|] eqn:Hp; [|discriminate].
  intros _. exact (parsed_is_not_DONE data json Hp).
Qed.

(** A payload whose delta can be encoded is not the sentinel. *)
Lemma encoded_is_not_DONE (data : jsstring) (bytes : chunk) :
  encoded_delta data = Some bytes -> string_eqb data (str "[DONE]") = false.
Proof.
  unfold encoded_delta. destruct (delta_content data) as [text|] eqn:Hd; [|discriminate].
  intros _. exact (delta_is_not_DONE data text Hd).
Qed.

(** A content that is an ASCII string is encoded as its own characters. *)
Lemma encoded_ascii (data t : jsstring) :
  delta_content data = Some (VStr t) -> ascii_only t -> encoded_delta data = Some t.
Proof.
  unfold encoded_delta. intros -> Ha. simpl. now rewrite (utf8_ascii t Ha).
Qed.

(** Deltas fed to an open stream, whenever the consumer reads in between,
    are accepted in their order. *)
Lemma feed_payloads (payloads : list jsstring) (chunks : list chunk) :
  Forall2 (fun data bytes => encoded_delta data = Some bytes) payloads chunks ->
  forall actions accepted s,
    open_with accepted s ->
    events_of actions = payload_events payloads ->
    open_with (accepted ++ chunks) (run s actions).
Proof.
  induction 1 as [|data bytes payloads chunks Hd _ IH]; intros actions accepted s Ho He.
  - simpl. rewrite app_nil_r. now apply reads_open.
  - simpl in He. destruct (events_split _ _ _ He) as (reads & rest & -> & Hr & Hrest).
    rewrite run_feed.
    replace (accepted ++ bytes :: chunks) with ((accepted ++ [bytes]) ++ chunks)
      by (now rewrite <- app_assoc).
    apply IH; [|exact Hrest].
    apply feed_bytes; [now apply reads_open | exact (encoded_is_not_DONE _ _ Hd) | exact Hd].
Qed.

(** The chunks of ASCII contents are the contents. *)
Lemma chunks_of_ascii (payloads : list jsstring) (chunks texts : list chunk) :
  Forall2 (fun data bytes => encoded_delta data = Some bytes) payloads chunks ->
  Forall2 (fun data t => delta_content data = Some (VStr t) /\ ascii_only t)
          payloads texts ->
  chunks = texts.
Proof.
  intros H. revert texts.
  induction H as [|data bytes payloads chunks Hd _ IH]; intros texts Ht.
  - now inversion Ht.
  - inversion Ht as [|? t ? texts' [Hdt Ha] Hrest]; subst.
    rewrite (encoded_ascii data t Hdt Ha) in Hd. injection Hd as <-.
    f_equal. now apply IH.
Qed.

(** The actions up to the last event. *)
Lemma events_split_last (actions : list Action) (evs : list StreamEvent)
  (e : StreamEvent) :
  events_of actions = evs ++ [e] ->
  exists before rest,
    actions = before ++ Feed e :: rest /\
    events_of before = evs /\ events_of rest = [].
Proof.
  revert evs. induction actions as [|a actions IH]; intros evs He.
  - destruct evs; discriminate.
  - destruct a as [e'|].
    + destruct evs as [|e0 evs]; simpl in He.
      * injection He as -> Hrest. exists [], actions. auto.
      * injection He as -> Hrest.
        destruct (IH evs Hrest) as (before & rest & -> & Hb & Hr).
        exists (Feed e0 :: before), rest. simpl. rewrite Hb. auto.
    + simpl in He. destruct (IH evs He) as (before & rest & -> & Hb & Hr).
      exists (Read :: before), rest. auto.
Qed.

(** X1. The text that the client receives is the concatenation of the
    deltas.  For every list of payloads whose delta the [try] block of
    [streamParser] can encode (the payload is a JSON text, it has a first
    choice, and the content of its delta can be turned into a string),
    followed by the sentinel, and however the reads of the consumer fall
    between the events: the chunks that the stream accepts are the
    encoded contents of the deltas, in their order and one chunk per
    event; the stream is not errored; once the consumer has read what
    waits, the stream is closed and what was read is exactly those
    chunks.  When the contents are ASCII strings, the bytes read are the
    strings one after the other. *)
Theorem transcoder_concatenates_deltas
  (payloads : list jsstring) (chunks : list chunk) (actions : list Action) :
  Forall2 (fun data bytes => encoded_delta data = Some bytes) payloads chunks ->
  events_of actions = payload_events (payloads ++ [str "[DONE]"]) ->
  let s := run new_stream actions in
  received s ++ queue (controller_of s) = chunks /\
  closeRequested (controller_of s) = true /\
  state (controller_of s) <> Errored /\
  forall n, (length (queue (controller_of s)) <= n)%nat ->
    state (controller_of (run s (repeat Read n))) = Closed /\
    received (run s (repeat Read n)) = chunks /\
    (forall texts,
       Forall2 (fun data t => delta_content data = Some (VStr t) /\ ascii_only t)
               payloads texts ->
       received_bytes (run s (repeat Read n)) = concat texts).
Proof.
  intros Hd He. cbv zeta.
  unfold payload_events in He. rewrite map_app in He. simpl in He.
  destruct (events_split_last _ _ _ He) as (before & rest & -> & Hb & Hr).
  assert (Hopen : open_with [] new_stream) by (repeat split).
  pose proof (feed_payloads payloads chunks Hd before [] new_stream Hopen Hb) as H.
  simpl app in H. apply feed_DONE in H. apply (reads_closed rest) in H; [|exact Hr].
  rewrite run_feed.
  set (s := run (step (run new_stream before) (Feed (ParsedEvent (str "[DONE]")))) rest) in *.
  pose proof H as (Hc & Ha & Hs).
  split; [exact Ha|]. split; [exact Hc|]. split.
  - destruct (queue (controller_of s)); rewrite Hs; discriminate.
  - intros n Hn. destruct (drain n _ s H Hn) as [Hst Hrec].
    split; [exact Hst|]. split; [exact Hrec|].
    intros texts Hascii. unfold received_bytes. rewrite Hrec.
    now rewrite (chunks_of_ascii payloads chunks texts Hd Hascii).
Qed.

(** Two deltas and the sentinel, the consumer reading once in between. *)
Lemma transcoder_concatenates_witness :
  let s := run new_stream [Feed event_Hi; Read; Feed event_there; Feed event_DONE] in
  received s ++ queue (controller_of s) = [str "Hi"; str " there"] /\
  state (controller_of (run s [Read])) = Closed /\
  received_bytes (run s [Read]) = str "Hi there".
Proof.
  cbv zeta.
  pose proof (transcoder_concatenates_deltas
    [json_text "{'choices':[{'delta':{'content':'Hi'}}]}";
     json_text "{'choices':[{'delta':{'content':' there'}}]}"]
    [str "Hi"; str " there"]
    [Feed event_Hi; Read; Feed event_there; Feed event_DONE]) as H.
  cbv zeta in H.
  destruct H as (Ha & _ & _ & Hn).
  - apply Forall2_cons; [exact (encoded_delta_of _ _ _ delta_Hi eq_refl)|].
    apply Forall2_cons; [exact (encoded_delta_of _ _ _ delta_there eq_refl)|].
    apply Forall2_nil.
  - reflexivity.
  - split; [exact Ha|].
    destruct (Hn 1%nat) as (Hst & _ & Hb); [vm_compute; lia|].
    split; [exact Hst|].
    apply (Hb [str "Hi"; str " there"]).
    apply Forall2_cons; [split; [exact delta_Hi|repeat constructor]|].
    apply Forall2_cons; [split; [exact delta_there|repeat constructor]|].
    apply Forall2_nil.
Defined.

(** A content that cannot be turned into a string - an object with an own
    property [toString], or an array that holds one - makes
    [encoder.encode] throw inside the [try]. *)
Lemma content_with_own_toString (props : object) :
  TextEncoder_encode (VObj props)
  = if has_key (str "toString") props then None
    else Some (str "[object Object]").
Proof.
  unfold TextEncoder_encode, ToString.
  destruct (has_key (str "toString") props); reflexivity.
Qed.

(** X20. A delta whose content cannot be turned into a string is handled
    as a malformed payload: [encoder.encode] throws inside the [try], the
    [catch] calls [controller.error], a readable stream is errored, its
    waiting chunks are dropped and nothing more is delivered.  The
    content is an object with an own property [toString], for example;
    an object without one is sent as the text [object Object]. *)
Theorem unencodable_content_errors_stream
  (s : Stream) (data : jsstring) (text : value) :
  feeding s = true ->
  state (controller_of s) = Readable ->
  delta_content data = Some text ->
  TextEncoder_encode text = None ->
  let s' := step s (Feed (ParsedEvent data)) in
  streamParser (ParsedEvent data) (controller_of s) = Some (error (controller_of s)) /\
  state (controller_of s') = Errored /\
  queue (controller_of s') = [] /\
  received s' = received s /\
  forall actions,
    state (controller_of (run s' actions)) = Errored /\
    received (run s' actions) = received s.
Proof.
  intros Hf Hs Hd He.
  apply (feed_throwing s data Hf Hs (delta_is_not_DONE _ _ Hd)).
  unfold encoded_delta. now rewrite Hd.
Qed.

(** After "Hi", a delta whose content is the object {"toString": 1}. *)
Lemma unencodable_content_witness :
  let s := run new_stream [Feed event_Hi] in
  let s' := step s (Feed (ParsedEvent
              (json_text "{'choices':[{'delta':{'content':{'toString':1}}}]}"))) in
  state (controller_of s') = Errored /\
  queue (controller_of s') = [] /\
  forall actions, received (run s' actions) = [].
Proof.
  cbv zeta.
  destruct (unencodable_content_errors_stream
              (run new_stream [Feed event_Hi])
              (json_text "{'choices':[{'delta':{'content':{'toString':1}}}]}")
              (VObj [(str "toString", VNum (of_Z 1))]))
    as (_ & He & Hq & _ & Hrun).
  - reflexivity.
  - reflexivity.
  - vm_compute. reflexivity.
  - reflexivity.
  - split; [exact He|]. split; [exact Hq|].
    intros actions. exact (proj2 (Hrun actions)).
Defined.

(** Without the sentinel nothing requests a close. *)
Lemma step_without_sentinel (s : Stream) (a : Action) :
  not_sentinel a ->
  closeRequested (controller_of s) = false ->
  state (controller_of s) <> Closed ->
  closeRequested (controller_of (step s a)) = false /\
  state (controller_of (step s a)) <> Closed.
Proof.
  destruct s as [[st cr q] f r]; simpl. intros Ha -> Hs.
  destruct a as [[data|v]|]; simpl.
  - destruct f; simpl; [|auto].
    destruct (string_eqb data (str "[DONE]")) eqn:E.
    + apply string_eqb_true in E. subst data. now contradiction Ha.
    + destruct (delta_content data) as [text|];
        [destruct (TextEncoder_encode text)|];
        unfold enqueue, error, CanCloseOrEnqueue; simpl;
        destruct st; simpl; split; auto; discriminate.
  - destruct f; simpl; auto.
  - unfold read; simpl. destruct st; simpl; auto.
    destruct q as [|x q]; simpl; auto.
    destruct q; simpl; split; auto; discriminate.
Qed.

(** X2. Only the sentinel closes the stream.  Whatever events the parser
    delivers and whatever the consumer reads, as long as no event carries
    the payload [DONE] no close is requested and the stream is not
    closed: an upstream body that ends without the sentinel leaves the
    response open (or errored), never cleanly ended. *)
Theorem stream_closes_only_on_sentinel (actions : list Action) :
  Forall not_sentinel actions ->
  closeRequested (controller_of (run new_stream actions)) = false /\
  state (controller_of (run new_stream actions)) <> Closed.
Proof.
  assert (H : forall s, Forall not_sentinel actions ->
            closeRequested (controller_of s) = false ->
            state (controller_of s) <> Closed ->
            closeRequested (controller_of (run s actions)) = false /\
            state (controller_of (run s actions)) <> Closed).
  { induction actions as [|a actions IH]; intros s Hf Hc Hs.
    - auto.
    - inversion Hf as [|? ? Ha Hrest]; subst.
      destruct (step_without_sentinel s a Ha Hc Hs) as [Hc' Hs'].
      exact (IH (step s a) Hrest Hc' Hs'). }
  intros Hf. apply H; [exact Hf | reflexivity | discriminate].
Qed.

(** A body that ends after "Hi" and " there": whatever the consumer reads,
    the stream is still readable. *)
Lemma stream_without_sentinel_witness :
  state (controller_of
           (run new_stream [Feed event_Hi; Feed event_there; Read; Read; Read]))
  = Readable.
Proof.
  pose proof (stream_closes_only_on_sentinel
                [Feed event_Hi; Feed event_there; Read; Read; Read]) as H.
  destruct H as [_ Hs].
  - repeat constructor; discriminate.
  - destruct (state _) eqn:E; [reflexivity | now contradiction Hs | vm_compute in E; discriminate].
Defined.



(** Reconnect-interval events leave the stream as it is. *)
Lemma step_reconnect (s : Stream) (v : number) :
  step s (Feed (ReconnectInterval v)) = s.
Proof. destruct s as [c [|] r]; reflexivity. Qed.

Lemma run_cons (s : Stream) (a : Action) (l : list Action) :
  run s (a :: l) = run (step s a) l.
Proof. reflexivity. Qed.

(** X4. Events of the type reconnect-interval change nothing: a run with
    them ends in the same stream as the run without them. *)
Theorem reconnect_intervals_are_ignored (actions : list Action) (s : Stream) :
  run s actions = run s (without_reconnect actions).
Proof.
  revert s. induction actions as [|a actions IH]; intros s; [reflexivity|].
  destruct a as [[data|v]|]; cbn [without_reconnect]; rewrite !run_cons.
  - apply IH.
  - rewrite step_reconnect. apply IH.
  - apply IH.
Qed.

(** X5. A delta whose content is [null] is sent as the four characters
    "null"; only a content that is left out sends nothing. *)
Theorem null_content_is_sent_as_text
  (accepted : list chunk) (s : Stream) (data : jsstring) :
  open_with accepted s ->
  (delta_content data = Some VNull ->
   open_with (accepted ++ [str "null"]) (step s (Feed (ParsedEvent data)))) /\
  (delta_content data = Some VUndefined ->
   open_with (accepted ++ [[]]) (step s (Feed (ParsedEvent data)))).
Proof.
  intros Ho. split; intros Hd.
  - exact (feed_delta accepted s data VNull (str "null") Ho
             (delta_is_not_DONE _ _ Hd) Hd eq_refl).
  - exact (feed_delta accepted s data VUndefined [] Ho
             (delta_is_not_DONE _ _ Hd) Hd eq_refl).
Qed.

(** The delta that opens a function call carries the content [null]. *)
Lemma null_content_witness :
  open_with [str "null"]
    (step new_stream
       (Feed (ParsedEvent
          (json_text "{'choices':[{'delta':{'role':'assistant','content':null}}]}")))).
Proof.
  refine (proj1 (null_content_is_sent_as_text [] new_stream _ _) _).
  - repeat split.
  - vm_compute. reflexivity.
Defined.

(** A stream that accepts nothing more gains no chunk: what it holds
    after a step is an initial part of what it held. *)
Lemma stopped_step (s : Stream) (a : Action) :
  stopped s ->
  stopped (step s a) /\ exists lost, held (step s a) ++ lost = held s.
Proof.
  assert (Herr : forall c r,
    CanCloseOrEnqueue c = false ->
    CanCloseOrEnqueue (error c) = false /\
    exists lost, (r ++ queue (error c)) ++ lost = r ++ queue c).
  { intros [st cr q] r Hc. unfold error, CanCloseOrEnqueue in *.
    destruct st; cbn [state closeRequested queue] in *.
    - split; [reflexivity|]. exists q. now rewrite app_nil_r.
    - split; [exact Hc|]. exists []. now rewrite app_nil_r.
    - split; [exact Hc|]. exists []. now rewrite app_nil_r. }
  unfold stopped, held. intros Hs.
  destruct a as [[data|v]|].
  - destruct (feeding s) eqn:Hf.
    + rewrite (step_payload s data Hf), streamParser_payload.
      unfold close, enqueue. rewrite Hs.
      destruct (string_eqb data (str "[DONE]"));
        [|destruct (encoded_delta data)];
        cbn [controller_of received]; now apply Herr.
    + unfold step. rewrite Hf. split; [exact Hs|]. exists []. now rewrite app_nil_r.
  - rewrite step_reconnect. split; [exact Hs|]. exists []. now rewrite app_nil_r.
  - destruct s as [[st cr q] f r]. unfold CanCloseOrEnqueue in *.
    unfold step, read. cbn [controller_of state queue closeRequested received feeding] in *.
    destruct st; simpl in *; try (split; [auto|exists []; now rewrite app_nil_r]).
    destruct cr; [|discriminate]. destruct q as [|x q]; simpl.
    + split; [auto|]. exists []. now rewrite app_nil_r.
    + destruct q; simpl; (split; [auto|]); exists [];
        rewrite app_nil_r, <- app_assoc; reflexivity.
Qed.

Lemma stopped_run (actions : list Action) (s : Stream) :
  stopped s -> exists lost, held (run s actions) ++ lost = held s.
Proof.
  revert s. induction actions as [|a actions IH]; intros s Hs.
  - exists []. now rewrite app_nil_r.
  - rewrite run_cons. destruct (stopped_step s a Hs) as (Hs' & lost & Hl).
    destruct (IH _ Hs') as (lost' & Hl').
    exists (lost' ++ lost). now rewrite app_assoc, Hl', Hl.
Qed.

Lemma taken_payload (data : jsstring) (l : list StreamEvent) :
  taken (ParsedEvent data :: l)
  = if string_eqb data (str "[DONE]") then []
    else match encoded_delta data with
         | Some bytes => bytes :: taken l
         | None => []
         end.
Proof.
  unfold encoded_delta. cbn [taken].
  destruct (string_eqb data (str "[DONE]")); [reflexivity|].
  now destruct (delta_content data).
Qed.

(** From an open stream that has accepted [pre], the stream holds an
    initial part of [pre] and the chunks taken from the events. *)
Lemma held_is_taken (actions : list Action) :
  forall (pre : list chunk) (s : Stream),
    open_with pre s ->
    exists rest, held (run s actions) ++ rest = pre ++ taken (events_of actions).
Proof.
  induction actions as [|a actions IH]; intros pre s Ho.
  - exists []. destruct Ho as (_ & _ & _ & Ha). unfold held. simpl.
    now rewrite !app_nil_r.
  - rewrite run_cons. destruct a as [[data|v]|]; cbn [events_of].
    + rewrite taken_payload.
      destruct (string_eqb data (str "[DONE]")) eqn:Hd.
      * apply string_eqb_true in Hd. subst data.
        pose proof (feed_DONE pre s Ho) as (Hc & Ha & _).
        destruct (stopped_run actions (step s (Feed (ParsedEvent (str "[DONE]")))))
          as (lost & Hl).
        { unfold stopped, CanCloseOrEnqueue. rewrite Hc. now destruct (state _). }
        exists lost. rewrite Hl. unfold held. now rewrite Ha, app_nil_r.
      * destruct (encoded_delta data) as [bytes|] eqn:Ht.
        -- destruct (IH _ _ (feed_bytes pre s data bytes Ho Hd Ht)) as (rest & Hr).
           exists rest. rewrite Hr. now rewrite <- app_assoc.
        -- pose proof Ho as (Hf & Hst & _ & Ha).
           destruct (feed_throwing s data Hf Hst Hd Ht) as (_ & He & Hq & Hrec & _).
           destruct (stopped_run actions (step s (Feed (ParsedEvent data))))
             as (lost & Hl).
           { unfold stopped, CanCloseOrEnqueue. now rewrite He. }
           exists (lost ++ queue (controller_of s)).
           rewrite app_assoc, Hl. unfold held. rewrite Hq, Hrec, !app_nil_r.
           exact Ha.
    + rewrite step_reconnect. now apply IH.
    + apply IH. now apply read_open.
Qed.

(** X19. What the client has read is always an initial part of the deltas.
    Whatever events the parser delivers and whenever the consumer reads:
    the chunks read so far, followed by those still waiting, are an
    initial part of the encoded contents of the deltas of the events that
    come before the first event that is the sentinel, carries no delta or
    carries a content that cannot be encoded.  No chunk is made up,
    doubled or delivered out of order, and nothing of an event after the
    sentinel or after a malformed event reaches the client. *)
Theorem delivered_is_initial_part_of_deltas (actions : list Action) :
  let s := run new_stream actions in
  exists rest,
    received s ++ queue (controller_of s) ++ rest = taken (events_of actions).
Proof.
  cbv zeta.
  destruct (held_is_taken actions [] new_stream) as (rest & Hr).
  - repeat split.
  - exists rest. unfold held in Hr. now rewrite <- app_assoc in Hr.
Qed.

End Streams.

(* ================================================================== *)
(** * Further properties of the request pipeline *)
(* ================================================================== *)

Module Requests.
Import JS Route Spec Notions Examples Pipeline.

(** Every path of [post]. *)
Lemma post_cases (cfg : Config) (w : World) (b : RequestBody) :
  (password_rejected cfg b = true /\ post cfg w b = (refusal error_password, [])) \/
  (password_rejected cfg b = false /\
   (messages b = None \/ messages b = Some []) /\
   post cfg w b = (refusal error_no_text, [])) \/
  (exists first rest,
     password_rejected cfg b = false /\
     messages b = Some (first :: rest) /\
     startsWith (last_content first (first :: rest)) (str "Check the balance") = true /\
     ((key_of cfg b <> localKey cfg /\
       post cfg w b = (billings_response w (splitKeys (key_of cfg b)), [])) \/
      (key_of cfg b = localKey cfg /\
       post cfg w b = (refusal error_builtin_balance, [])))) \/
  (exists first rest,
     password_rejected cfg b = false /\
     messages b = Some (first :: rest) /\
     startsWith (last_content first (first :: rest)) (str "Check the balance") = false /\
     startsWith (last_content first (first :: rest)) (str "sk-") = true /\
     post cfg w b
     = (billings_response w (splitKeys (last_content first (first :: rest))), [])) \/
  (exists msgs, completion_path cfg b msgs).
Proof.
  unfold post, post_try, refusal.
  destruct (password_rejected cfg b) eqn:Hp; [now left|]. right.
  destruct (messages b) as [[|first rest]|] eqn:Hm; [left; auto| |left; auto].
  right.
  destruct (startsWith (last_content first (first :: rest)) (str "Check the balance"))
    eqn:Hc.
  - left. exists first, rest.
    split; [reflexivity|]. split; [reflexivity|]. split; [exact Hc|].
    destruct (string_eqb (key_of cfg b) (localKey cfg)) eqn:E; simpl.
    + right. split; [exact (proj1 (string_eqb_eq _ _) E)|reflexivity].
    + left. split; [|reflexivity]. intros H. apply (proj2 (string_eqb_eq _ _)) in H. congruence.
  - right.
    destruct (startsWith (last_content first (first :: rest)) (str "sk-")) eqn:Hs.
    + left. exists first, rest. auto.
    + right. exists (first :: rest). unfold completion_path.
      split; [exact Hp|]. split; [exact Hm|]. exists first, rest. auto.
Qed.

(** The answer on the completion path is never the refusal of a password:
    its refusals carry other messages, and an answer made of [rawRes] is a
    relayed response, a stream, or the envelope of an error of the
    engine. *)
Lemma answer_is_no_refusal (w : World) (request : CompletionRequest)
  (message : jsstring) :
  reply w (rawRes_of w request) <> refusal message.
Proof.
  unfold refusal, Response_with_status.
  destruct (fetchWithTimeout w request) as [m|u] eqn:Hf.
  - rewrite (reply_rejected w request m Hf). discriminate.
  - rewrite (reply_delivered w request u Hf).
    destruct ((200 <=? up_status u) && (up_status u <=? 299)); [discriminate|].
    unfold Response_new. cbv zeta.
    destruct (negb (is_byte_string (up_statusText u))); [discriminate|].
    destruct (negb ((200 <=? up_status u mod 65536)
                    && (up_status u mod 65536 <=? 599)));
      [discriminate|].
    destruct (negb (is_reason_phrase (up_statusText u))); [discriminate|].
    destruct (has_body (BodyUpstream (up_body u))
              && null_body_status (up_status u mod 65536));
      discriminate.
Qed.

Lemma completion_is_no_password_refusal (cfg : Config) (w : World)
  (b : RequestBody) (msgs : list ChatMessage) :
  completion_path cfg b msgs ->
  fst (post cfg w b) <> refusal error_password.
Proof.
  intros Hpath. rewrite (post_completion cfg w b msgs Hpath). cbv zeta.
  destruct (randomKey (draw w) (splitKeys (key_of cfg b))) as [[|c apiKey]|];
    try (simpl; unfold refusal; discriminate).
  destruct (gt_value (estimate w msgs) (limit cfg b (model_of cfg b)))
    as [[|]|]; simpl.
  - destruct (1 <? length msgs)%nat; unfold refusal; discriminate.
  - apply answer_is_no_refusal.
  - unfold refusal; discriminate.
Qed.

(** X6. The password gate: a request is refused for its password exactly when
    a non-empty PASSWORD is configured and the request does not carry that
    very string; the refusal comes before any call.  With PASSWORD unset
    or empty every request passes the gate. *)
Theorem password_gate (cfg : Config) (w : World) (b : RequestBody) :
  (fst (post cfg w b) = refusal error_password <->
   exists p, PASSWORD cfg = Some p /\ p <> [] /\ password b <> Some p) /\
  (fst (post cfg w b) = refusal error_password -> snd (post cfg w b) = []).
Proof.
  assert (Hrej : password_rejected cfg b = true <->
                 exists p, PASSWORD cfg = Some p /\ p <> [] /\ password b <> Some p).
  { unfold password_rejected, pwd, nonempty.
    destruct (PASSWORD cfg) as [[|c p]|]; cbn [andb negb].
    - split; [discriminate|]. intros (p & Hp & Hne & _). congruence.
    - destruct (password b) as [q|].
      + destruct (string_eqb (c :: p) q) eqn:E; cbn [andb negb].
        * apply string_eqb_eq in E. subst q. split; [discriminate|].
          intros (p' & Hp & _ & Hd). congruence.
        * split; [|reflexivity]. intros _. exists (c :: p).
          split; [reflexivity|]. split; [discriminate|].
          intros H. injection H as ->. rewrite string_eqb_refl in E. discriminate.
      + split; [|reflexivity]. intros _. exists (c :: p).
        split; [reflexivity|]. split; discriminate.
    - split; [discriminate|]. intros (p & Hp & _). discriminate. }
  assert (Hpost : fst (post cfg w b) = refusal error_password ->
                  password_rejected cfg b = true /\ snd (post cfg w b) = []).
  { intros H.
    destruct (post_cases cfg w b)
      as [[Hp Hpost] | [(Hp & _ & Hpost) | [(f & r & Hp & _ & _ & [[_ Hpost]|[_ Hpost]])
          | [(f & r & Hp & _ & _ & _ & Hpost) | [msgs Hpath]]]]];
      try (rewrite Hpost in H; simpl in H; unfold refusal, billings_response,
           Response_of, Response_with_status in H; discriminate).
    - rewrite Hpost. auto.
    - now apply (completion_is_no_password_refusal cfg w b msgs) in H. }
  split; [split|].
  - intros H. apply Hrej. now apply Hpost.
  - intros H. apply Hrej in H.
    destruct (post_cases cfg w b)
      as [[Hp Heq] | [(Hp & _) | [(f & r & Hp & _) | [(f & r & Hp & _) | [msgs (Hp & _)]]]]];
      try congruence.
    now rewrite Heq.
  - intros H. now apply Hpost.
Qed.

(** X7. The two balance commands are answered without the completion path:
    no key is selected, no token is counted, no budget applies and the
    completion endpoint is not called.  [Check the balance] looks up the
    keys of the request, and is refused when the key is the built-in one;
    a last message that starts with [sk-] is itself the list of keys. *)
Theorem balance_commands_make_no_completion_call (cfg : Config) (w : World)
  (b : RequestBody) (first : ChatMessage) (rest : list ChatMessage) :
  password_rejected cfg b = false ->
  messages b = Some (first :: rest) ->
  startsWith (last_content first (first :: rest)) (str "Check the balance") = true \/
  startsWith (last_content first (first :: rest)) (str "sk-") = true ->
  snd (post cfg w b) = [] /\
  fst (post cfg w b)
  = if startsWith (last_content first (first :: rest)) (str "Check the balance")
    then if string_eqb (key_of cfg b) (localKey cfg)
         then refusal error_builtin_balance
         else billings_response w (splitKeys (key_of cfg b))
    else billings_response w (splitKeys (last_content first (first :: rest))).
Proof.
  intros Hp Hm Hcmd. unfold post, post_try. rewrite Hp, Hm.
  destruct (startsWith (last_content first (first :: rest)) (str "Check the balance")).
  - destruct (string_eqb (key_of cfg b) (localKey cfg)); simpl; auto.
  - destruct Hcmd as [Hc|Hs]; [discriminate|]. rewrite Hs. simpl. auto.
Qed.

Lemma balance_commands_witness :
  let pasted := ask (str "sk-a sk-b") None in
  let check := ask (str " Check the balance ") (Some (str "sk-b")) in
  let builtin := ask (str "Check the balance") None in
  post cfg0 w0 pasted = (billings_response w0 [str "sk-a"; str "sk-b"], []) /\
  post cfg0 w0 check = (billings_response w0 [str "sk-b"], []) /\
  post cfg0 w0 builtin = (refusal error_builtin_balance, []).
Proof.
  cbv zeta.
  pose proof (balance_commands_make_no_completion_call cfg0 w0
                (ask (str "sk-a sk-b") None) (mkMessage user (str "sk-a sk-b")) []
                eq_refl eq_refl (or_intror eq_refl)) as [H1 H1'].
  pose proof (balance_commands_make_no_completion_call cfg0 w0
                (ask (str " Check the balance ") (Some (str "sk-b")))
                (mkMessage user (str " Check the balance ")) []
                eq_refl eq_refl (or_introl eq_refl)) as [H2 H2'].
  pose proof (balance_commands_make_no_completion_call cfg0 w0
                (ask (str "Check the balance") None)
                (mkMessage user (str "Check the balance")) []
                eq_refl eq_refl (or_introl eq_refl)) as [H3 H3'].
  repeat split; apply injective_projections; assumption.
Defined.

(** X8. Without a key, neither in the request nor built in, a completion
    request is refused with the key error right after the key selection:
    no token is counted and the completion endpoint is not called. *)
Theorem missing_key_is_refused_before_counting (cfg : Config) (w : World)
  (b : RequestBody) (msgs : list ChatMessage) :
  completion_path cfg b msgs ->
  key_of cfg b = [] ->
  post cfg w b = (refusal error_no_key, [call_randomKey []]).
Proof.
  intros Hpath Hk. rewrite (post_completion cfg w b msgs Hpath), Hk.
  reflexivity.
Qed.

Lemma missing_key_witness :
  post cfg_nokey w0 (ask (str "hello") None)
  = (refusal error_no_key, [call_randomKey []]).
Proof.
  apply (missing_key_is_refused_before_counting cfg_nokey w0 _
           [mkMessage user (str "hello")]).
  - split; [reflexivity|]. split; [reflexivity|].
    exists (mkMessage user (str "hello")), []. repeat split.
  - reflexivity.
Defined.

Lemma lookup_absent (m : jsstring) (o : object) :
  has_key m o = false -> lookup m o = VUndefined.
Proof.
  induction o as [|[k v] o IH]; simpl; [reflexivity|].
  destruct (string_eqb m k); simpl; [discriminate|exact IH].
Qed.

(** A comparison with a ceiling that is no number never rejects. *)
Lemma gt_value_NaN (x : number) (v : value) :
  ToNumber v = Some NaN -> gt_value x v = Some false.
Proof.
  unfold gt_value, ltb. intros ->. cbn [option_map]. now destruct x.
Qed.

(** The ceiling of a model that the default table does not list is
    [undefined], for a caller with a key of its own and, with no override
    or a global one, for the built-in key as well. *)
Lemma limit_of_unlisted_model (cfg : Config) (b : RequestBody) (m : jsstring) :
  has_key m (defaultMaxInputTokens cfg) = false ->
  nonempty (key b) = true \/
  MAX_INPUT_TOKENS cfg = None \/
  (exists v, MAX_INPUT_TOKENS cfg = Some v /\ isInteger (StringToNumber v) = true) ->
  limit cfg b m = VUndefined.
Proof.
  intros Hm Hcase. unfold limit.
  destruct (nonempty (key b)) eqn:Hk; [exact (lookup_absent _ _ Hm)|].
  destruct Hcase as [H | [H | (v & H & Hint)]]; [discriminate| |];
    unfold maxInputTokens; rewrite H.
  - exact (lookup_absent _ _ Hm).
  - destruct v as [|c v]; [exact (lookup_absent _ _ Hm)|].
    rewrite Hint, lookup_global, Hm. reflexivity.
Qed.

(** X9. Only the models of the default table have a token budget.  A
    request that names another model is never too long: its ceiling is
    [undefined], the comparison [tokens > undefined] is false whatever the
    estimate, and the request goes to the completion endpoint.  This holds
    for a caller with a key of its own, and for the built-in key when
    MAX_INPUT_TOKENS is unset or an integer. *)
Theorem unlisted_model_has_no_budget (cfg : Config) (w : World)
  (b : RequestBody) (msgs : list ChatMessage) (apiKey : jsstring) :
  reaches_check cfg w b msgs apiKey ->
  has_key (model_of cfg b) (defaultMaxInputTokens cfg) = false ->
  nonempty (key b) = true \/
  MAX_INPUT_TOKENS cfg = None \/
  (exists v, MAX_INPUT_TOKENS cfg = Some v /\ isInteger (StringToNumber v) = true) ->
  let request := completion_request cfg b apiKey msgs in
  post cfg w b
  = (reply w (rawRes_of w request),
     call_randomKey (splitKeys (key_of cfg b))
       :: counted msgs ++ [call_fetchWithTimeout request]).
Proof.
  intros (Hpath & Hk & Hne) Hmodel Hcase.
  rewrite (post_completion cfg w b msgs Hpath). cbv zeta. rewrite Hk.
  destruct apiKey as [|c apiKey]; [congruence|].
  rewrite gt_value_NaN; [reflexivity|].
  now rewrite (limit_of_unlisted_model cfg b _ Hmodel Hcase).
Qed.

(** 4000 code units for the model gpt-5, which the table does not list,
    with the key sk-mine: the request is sent on, where the same text for
    the model gpt-3.5-turbo is refused as too long. *)
Lemma unlisted_model_witness :
  let long := ask_model (repeat 97%N 4000) (str "sk-mine") in
  fst (post cfg0 w0 (long (str "gpt-5")))
  = mkResponse 429 (str "Too Many Requests") (BodyUpstream (up_body too_many_requests)) /\
  fst (post cfg0 w0 (long (str "gpt-3.5-turbo"))) = refusal error_too_long.
Proof.
  cbv zeta. split; [|vm_compute; reflexivity].
  rewrite (unlisted_model_has_no_budget cfg0 w0
             (ask_model (repeat 97%N 4000) (str "sk-mine") (str "gpt-5"))
             [mkMessage user (repeat 97%N 4000)] (str "sk-mine")).
  - reflexivity.
  - split; [|split; [reflexivity|discriminate]].
    split; [reflexivity|]. split; [reflexivity|].
    exists (mkMessage user (repeat 97%N 4000)), []. repeat split.
  - reflexivity.
  - left. reflexivity.
Defined.

Lemma randomKey_In (d : nat) (keys : list jsstring) (k : jsstring) :
  randomKey d keys = Some k -> In k keys.
Proof.
  unfold randomKey. destruct keys as [|k0 keys]; [discriminate|].
  apply nth_error_In.
Qed.

Lemma effective_timeout_usable (cfg : Config) :
  is_nan (effective_timeout cfg) = false /\
  is_zero (effective_timeout cfg) = false.
Proof.
  unfold effective_timeout.
  destruct (timeout cfg) as [s|s| |s m e]; simpl; split; reflexivity.
Qed.

(** X10. Every request that [post] sends to the completion endpoint carries a
    non-empty bearer key taken from the keys of the request (or from the
    built-in ones), a non-empty model name, a timeout that is a number
    other than zero, and the messages of the request body, all of them
    and in their order. *)
Theorem upstream_request_is_well_formed (cfg : Config) (w : World)
  (b : RequestBody) (request : CompletionRequest) :
  In (call_fetchWithTimeout request) (snd (post cfg w b)) ->
  bearer request <> [] /\
  In (bearer request) (splitKeys (key_of cfg b)) /\
  request_model request <> [] /\
  is_nan (request_timeout request) = false /\
  is_zero (request_timeout request) = false /\
  messages b = Some (request_messages request) /\
  request_messages request <> [].
Proof.
  intros Hin.
  destruct (post_upstream_call cfg w b request Hin)
    as (msgs & apiKey & ((Hp & Hm & first & rest & Hmsgs & _) & Hk & Hne) & _ & -> & _).
  unfold completion_request; cbn [bearer request_model request_timeout
                                  request_messages].
  split; [exact Hne|].
  split; [exact (randomKey_In _ _ _ Hk)|].
  split; [destruct (model_of cfg b); discriminate|].
  split; [apply effective_timeout_usable|].
  split; [apply effective_timeout_usable|].
  split; [exact Hm|].
  rewrite Hmsgs. discriminate.
Qed.

Lemma upstream_request_witness :
  let request := completion_request cfg0 (ask (str "hello") (Some (str "sk-mine")))
                   (str "sk-mine") [mkMessage user (str "hello")] in
  request_timeout request = of_Z 30000 /\
  request_model request = str "gpt-3.5-turbo" /\
  (bearer request <> [] /\
   In (bearer request) [str "sk-mine"] /\
   request_model request <> [] /\
   is_nan (request_timeout request) = false /\
   is_zero (request_timeout request) = false /\
   Some [mkMessage user (str "hello")] = Some (request_messages request) /\
   request_messages request <> []).
Proof.
  cbv zeta. split; [reflexivity|]. split; [reflexivity|].
  apply (upstream_request_is_well_formed cfg0 w0
           (ask (str "hello") (Some (str "sk-mine")))).
  vm_compute. right. right. left. reflexivity.
Defined.

(** X11. When the call of the completion endpoint fails (no connection, or the
    timeout), [post] answers 500 with the message of the failure in the
    error envelope. *)
Theorem network_failure_is_answered_500 (cfg : Config) (w : World)
  (b : RequestBody) (request : CompletionRequest) (message : jsstring) :
  In (call_fetchWithTimeout request) (snd (post cfg w b)) ->
  fetchWithTimeout w request = Rejected message ->
  fst (post cfg w b) = Response_with_status (BodyError message) 500.
Proof.
  intros Hin Hf.
  destruct (post_upstream_call cfg w b request Hin) as (msgs & apiKey & _ & _ & _ & ->).
  cbn [fst]. exact (reply_rejected w request message Hf).
Qed.

Lemma network_failure_witness :
  fst (post cfg0 (world_up (Rejected (str "timeout")) []) (ask (str "hello") None))
  = Response_with_status (BodyError (str "timeout")) 500.
Proof.
  apply (network_failure_is_answered_500 cfg0 _ _
           (completion_request cfg0 (ask (str "hello") None) (str "sk-builtin")
              [mkMessage user (str "hello")])).
  - vm_compute. right. right. left. reflexivity.
  - reflexivity.
Defined.

(** The stream whose [start] throws is errored and delivers nothing. *)
Lemma failed_stream_delivers_nothing (actions : list Action) :
  state (controller_of (run failed_stream actions)) = Errored /\
  received (run failed_stream actions) = [].
Proof.
  destruct (Transcoder.errored_run actions failed_stream eq_refl) as [Hc Hr].
  rewrite Hc, Hr. split; reflexivity.
Qed.

(** X12. When the completion endpoint answers with a status from 200 to 299,
    [post] answers 200 with an empty status text, whatever the status and
    the status text of the upstream were.  Its body is the stream fed by
    the events that the parser makes of the upstream body; when the
    upstream response has no body ([null], as with 204 and 205), iterating
    it throws in [start], and the body of the answer is a stream that is
    errored from the start and delivers nothing. *)
Theorem successful_upstream_is_answered_200_stream (cfg : Config) (w : World)
  (b : RequestBody) (request : CompletionRequest) (u : Upstream) :
  In (call_fetchWithTimeout request) (snd (post cfg w b)) ->
  fetchWithTimeout w request = Delivered u ->
  200 <= up_status u <= 299 ->
  fst (post cfg w b)
  = mkResponse 200 []
      match up_body u with
      | Some payload => BodyStream (createParser w payload)
      | None => BodyFailedStream
      end /\
  (up_body u = None ->
   body (fst (post cfg w b)) = BodyFailedStream /\
   forall actions,
     state (controller_of (run failed_stream actions)) = Errored /\
     received (run failed_stream actions) = []).
Proof.
  intros Hin Hf [Hlo Hhi].
  destruct (post_upstream_call cfg w b request Hin) as (msgs & apiKey & _ & _ & _ & ->).
  cbn [fst]. rewrite (reply_delivered w request u Hf).
  apply Z.leb_le in Hlo, Hhi. rewrite Hlo, Hhi. cbn [andb].
  split; [reflexivity|]. intros ->.
  split; [reflexivity|]. exact failed_stream_delivers_nothing.
Qed.

(** A 201 with a body becomes a 200 with the transcoded stream; a 204,
    which has no body, becomes a 200 with a stream that has failed. *)
Lemma successful_upstream_witness :
  let created := mkUpstream 201 (str "Created") (Some [str "data: [DONE]"]) in
  let no_content := mkUpstream 204 (str "No Content") None in
  fst (post cfg0 (world_up (Delivered created) [event_DONE]) (ask (str "hello") None))
  = mkResponse 200 [] (BodyStream [event_DONE]) /\
  fst (post cfg0 (world_up (Delivered no_content) [event_DONE]) (ask (str "hello") None))
  = mkResponse 200 [] BodyFailedStream.
Proof.
  cbv zeta. split.
  - refine (proj1 (successful_upstream_is_answered_200_stream cfg0
           (world_up (Delivered (mkUpstream 201 (str "Created")
                                            (Some [str "data: [DONE]"])))
                     [event_DONE])
           (ask (str "hello") None)
           (completion_request cfg0 (ask (str "hello") None) (str "sk-builtin")
              [mkMessage user (str "hello")])
           (mkUpstream 201 (str "Created") (Some [str "data: [DONE]"])) _ _ _)).
    + vm_compute. right. right. left. reflexivity.
    + reflexivity.
    + simpl. lia.
  - refine (proj1 (successful_upstream_is_answered_200_stream cfg0
           (world_up (Delivered (mkUpstream 204 (str "No Content") None))
                     [event_DONE])
           (ask (str "hello") None)
           (completion_request cfg0 (ask (str "hello") None) (str "sk-builtin")
              [mkMessage user (str "hello")])
           (mkUpstream 204 (str "No Content") None) _ _ _)).
    + vm_compute. right. right. left. reflexivity.
    + reflexivity.
    + simpl. lia.
Defined.

(** X13. A MAX_INPUT_TOKENS that is neither an integer nor a JSON text
    with properties changes no ceiling and stops nothing: a text that
    [JSON.parse] rejects is only logged, and a number that is no integer,
    [true], [false], [null] or an empty string literal has no properties
    to lay over the default table. *)
Theorem override_without_effect_is_ignored (cfg : Config) (v : jsstring) :
  MAX_INPUT_TOKENS cfg = Some v ->
  override_without_effect v ->
  maxInputTokens cfg = defaultMaxInputTokens cfg.
Proof.
  unfold maxInputTokens, override_without_effect.
  intros -> (Hint & Hparse).
  destruct v as [|c v]; [reflexivity|]. rewrite Hint.
  destruct Hparse as [-> | (parsed & -> & ->)]; reflexivity.
Qed.

Lemma override_without_effect_witness :
  maxInputTokens (cfg_override (str "2048.5")) = defaultMaxInputTokens cfg0 /\
  maxInputTokens (cfg_override (str "null")) = defaultMaxInputTokens cfg0 /\
  maxInputTokens (cfg_override (str "4k")) = defaultMaxInputTokens cfg0.
Proof.
  split; [|split].
  - refine (override_without_effect_is_ignored (cfg_override (str "2048.5"))
              (str "2048.5") eq_refl _).
    split; [vm_compute; reflexivity|]. right.
    exists (VNum (of_decimal false 20485 (-1))). split; vm_compute; reflexivity.
  - refine (override_without_effect_is_ignored (cfg_override (str "null"))
              (str "null") eq_refl _).
    split; [vm_compute; reflexivity|]. right.
    exists VNull. split; vm_compute; reflexivity.
  - refine (override_without_effect_is_ignored (cfg_override (str "4k"))
              (str "4k") eq_refl _).
    split; [vm_compute; reflexivity|]. left. vm_compute; reflexivity.
Defined.

End Requests.

(* ================================================================== *)
(** * The host of the completion endpoint: properties *)
(* ================================================================== *)

Module Address.
Import JS Route Endpoint.

Lemma startsWith_app (p s : jsstring) : startsWith (p ++ s) p = true.
Proof.
  induction p as [|c p IH]; simpl.
  - now destruct s.
  - now rewrite N.eqb_refl.
Qed.

(** X14. The host of the completion endpoint.  With NOGFW set it is
    api.openai.com whatever OPENAI_API_BASE_URL says; otherwise one
    leading [https://] or [http://] of OPENAI_API_BASE_URL is cut, and an
    unset or empty OPENAI_API_BASE_URL stands for api.openai.com.  Only one
    scheme is cut, and what is left is not checked: [https://] alone
    leaves the empty host. *)
Theorem baseURL_cuts_one_scheme (host : jsstring) :
  (forall nogfw base, nonempty nogfw = true ->
     baseURL nogfw base = str "api.openai.com") /\
  (forall nogfw, nonempty nogfw = false ->
     baseURL nogfw None = str "api.openai.com" /\
     baseURL nogfw (Some []) = str "api.openai.com" /\
     baseURL nogfw (Some (str "https://" ++ host)) = host /\
     baseURL nogfw (Some (str "http://" ++ host)) = host).
Proof.
  unfold baseURL. split.
  - now intros nogfw base ->.
  - intros nogfw ->. split; [reflexivity|]. split; [reflexivity|]. split.
    + change (strip_scheme (str "https://" ++ host) = host).
      unfold strip_scheme. now rewrite startsWith_app.
    + change (strip_scheme (str "http://" ++ host) = host).
      unfold strip_scheme.
      replace (startsWith (str "http://" ++ host) (str "https://")) with false
        by reflexivity.
      now rewrite startsWith_app.
Qed.

End Address.

(* ================================================================== *)
(** * Further properties of the billing table *)
(* ================================================================== *)

Module Tables.
Import JS Route Spec Notions Examples Billings.

Section Sorts.

Variable A : Type.
Variable comparefn : A -> A -> number.

Lemma insert_left_permutes (element : A) (before : list A) :
  Permutation (insert_left A comparefn element before) (element :: before).
Proof.
  induction before as [|tmp before IH]; simpl; [reflexivity|].
  destruct (positive_order (SortCompare comparefn tmp element)); [|reflexivity].
  rewrite IH. apply perm_swap.
Qed.

Lemma insertion_fold_permutes (l before : list A) :
  Permutation (fold_left (fun before element => insert_left A comparefn element before)
                         l before)
              (before ++ l).
Proof.
  revert before. induction l as [|x l IH]; intros before; simpl.
  - now rewrite app_nil_r.
  - rewrite IH, insert_left_permutes. apply Permutation_middle.
Qed.

Lemma sort_insertion_permutes (l : list A) :
  Permutation (sort_insertion comparefn l) l.
Proof.
  unfold sort_insertion. rewrite <- Permutation_rev.
  now rewrite insertion_fold_permutes.
Qed.

Lemma insert_at_permutes (n : nat) (pivot : A) (sorted : list A) :
  Permutation (firstn n sorted ++ pivot :: skipn n sorted) (pivot :: sorted).
Proof.
  symmetry. rewrite <- (firstn_skipn n sorted) at 1. apply Permutation_middle.
Qed.

Lemma binary_insertion_permutes (rest sorted : list A) :
  Permutation (binary_insertion A comparefn sorted rest) (sorted ++ rest).
Proof.
  revert sorted. induction rest as [|pivot rest IH]; intros sorted; simpl.
  - now rewrite app_nil_r.
  - rewrite IH, insert_at_permutes. simpl. apply Permutation_middle.
Qed.

Lemma CountAndMakeRun_permutes (l : list A) :
  Permutation (snd (CountAndMakeRun comparefn l)) l.
Proof.
  unfold CountAndMakeRun.
  destruct l as [|a0 [|a1 rest]]; try reflexivity.
  cbv zeta. cbn [snd].
  destruct (negative (SortCompare comparefn a1 a0)); [|reflexivity].
  rewrite <- Permutation_rev. now rewrite firstn_skipn.
Qed.

Lemma sort_v8_permutes (l : list A) : Permutation (sort_v8 comparefn l) l.
Proof.
  unfold sort_v8.
  pose proof (CountAndMakeRun_permutes l) as H.
  destruct (CountAndMakeRun comparefn l) as [n l']. cbn [snd] in H.
  rewrite binary_insertion_permutes, firstn_skipn. exact H.
Qed.

End Sorts.

(** Both models of the engine's sort return the elements they were given. *)
Lemma engine_sorts_permute : permutes (@sort_v8) /\ permutes (@sort_insertion).
Proof.
  split; intros A comparefn l.
  - apply sort_v8_permutes.
  - apply sort_insertion_permutes.
Qed.

Lemma row_key_of (k : Billing) : row_key (row k) = slice0 8 (billing_key k).
Proof. unfold row. now destruct (is_number_zero (totalGranted k)). Qed.

Lemma row_keys_of_lookups (w : World) (keys : list jsstring) :
  map row_key (map row (map (fetchBilling w) keys)) = map (slice0 8) keys.
Proof.
  induction keys as [|k keys IH]; simpl; [reflexivity|].
  now rewrite row_key_of, fetchBilling_key, IH.
Qed.

(** X15. The balance table has one row for every key that was looked up,
    whatever order the sort of the engine gives them (the comparison
    function does not fix one): the rows are the rows of the records, and
    their first columns are the keys cut to their first 8 code units.  No
    row shows more than 8 code units of a key. *)
Theorem billing_table_has_one_row_per_key (w : World) (keys : list jsstring) :
  permutes (Array_sort w) ->
  let rows := genBillingsTable (Array_sort w) (map (fetchBilling w) keys) in
  Permutation rows (map row (map (fetchBilling w) keys)) /\
  Permutation (map row_key rows) (map (slice0 8) keys) /\
  length rows = length keys /\
  Forall (fun r => (length (row_key r) <= 8)%nat) rows.
Proof.
  intros Hsort rows.
  assert (Hrows : Permutation rows (map row (map (fetchBilling w) keys))).
  { unfold rows, genBillingsTable, sorted_billings.
    apply Permutation_map, Hsort. }
  assert (Hkeys : Permutation (map row_key rows) (map (slice0 8) keys)).
  { rewrite <- (row_keys_of_lookups w keys). now apply Permutation_map. }
  split; [exact Hrows|]. split; [exact Hkeys|]. split.
  - rewrite (Permutation_length Hrows). now rewrite !length_map.
  - apply Forall_forall. intros r Hr.
    apply (in_map row_key) in Hr.
    apply (Permutation_in _ Hkeys) in Hr.
    apply in_map_iff in Hr. destruct Hr as (k & <- & _).
    unfold slice0. rewrite length_firstn. apply Nat.le_min_l.
Qed.

Lemma billing_table_witness :
  let rows := genBillingsTable (@sort_v8)
                (map (fetchBilling w0) [str "sk-aaaaaaaaaa"; str "sk-b"]) in
  Permutation (map row_key rows) [str "sk-aaaaa"; str "sk-b"] /\
  length rows = 2%nat.
Proof.
  cbv zeta.
  destruct (billing_table_has_one_row_per_key w0 [str "sk-aaaaaaaaaa"; str "sk-b"]
              (proj1 engine_sorts_permute)) as (_ & Hkeys & Hlen & _).
  split; [exact Hkeys|exact Hlen].
Defined.

Lemma row_of_unusable (k : jsstring) : row (unusable k) = RowUnavailable (slice0 8 k).
Proof. reflexivity. Qed.

(** X16. A key whose lookup fails (a network error or a body that is no JSON
    text on either call, or an error payload of the subscription endpoint)
    is never left out of the table: it is listed as unavailable under its
    first 8 code units. *)
Theorem failed_key_is_listed_unavailable (w : World) (keys : list jsstring)
  (k : jsstring) :
  permutes (Array_sort w) ->
  In k keys ->
  lookup_fails w k ->
  In (RowUnavailable (slice0 8 k))
     (genBillingsTable (Array_sort w) (map (fetchBilling w) keys)).
Proof.
  intros Hsort Hin Hfail.
  assert (Hrec : fetchBilling w k = unusable k).
  { destruct Hfail as [H | [H | (sd & err & Hs & He & Ht)]].
    - now apply fetchBilling_subscription_fails.
    - now apply fetchBilling_usage_fails.
    - now apply (fetchBilling_subscription_error_payload w k sd err). }
  unfold genBillingsTable, sorted_billings.
  apply (Permutation_in (l := map row (map (fetchBilling w) keys))).
  - symmetry. apply Permutation_map, Hsort.
  - rewrite <- row_of_unusable, <- Hrec. now apply in_map, in_map.
Qed.

Lemma failed_key_witness :
  In (RowUnavailable (str "sk-a"))
     (genBillingsTable (@sort_v8) (map (fetchBilling w0) [str "sk-a"; str "sk-b"])).
Proof.
  apply (failed_key_is_listed_unavailable w0 [str "sk-a"; str "sk-b"] (str "sk-a")
           (proj1 engine_sorts_permute)).
  - left. reflexivity.
  - left. reflexivity.
Defined.

End Tables.
